(** * Math Solver AI local server (server.js): a shallow embedding

    The server is a thin HTTP front for a chat provider.  Its logic is
    message reshaping, payload validation, translation of the provider's
    replies, model-list filtering, a size-guarded body reader, a
    traversal-safe static file server and a [.env] loader.  Each of these
    is embedded below as an executable function over JavaScript values,
    with the effects of a handler (log lines, responses, outbound calls)
    recorded as a trace of events. *)

From Stdlib Require Import ZArith QArith_base Ascii.
From stdpp Require Import base option list strings pretty gmap.

Local Open Scope Z_scope.

(** ** JavaScript values

    The values the handlers touch come out of [JSON.parse] or are built by
    object and array literals.  A number is [JNum n] when it is an
    integer that prints in plain digits (magnitude below 10^21);
    any other number (one with a fraction, or beyond that range) is
    [JDec shown], carried by the text that [String] prints for it, and is
    never zero.  A string is the sequence of its characters.  An object
    is the list of its own properties in insertion order, read at the
    first binding of a key. *)

#[warnings="-register-all"]
Inductive JsVal : Type :=
| JUndefined
| JNull
| JBool (b : bool)
| JNum (n : Z)
| JDec (shown : string)
| JStr (s : string)
| JArr (items : list JsVal)
| JObj (props : list (string * JsVal)).

Module Js.

(** ToBoolean. *)
Definition truthy (v : JsVal) : bool :=
  match v with
  | JUndefined | JNull => false
  | JBool b => b
  | JNum n => negb (n =? 0)
  | JDec _ => true
  | JStr s => match s with EmptyString => false | String _ _ => true end
  | JArr _ | JObj _ => true
  end.

(** [a || b] *)
Definition or (a b : JsVal) : JsVal := if truthy a then a else b.

Definition isArray (v : JsVal) : bool :=
  match v with JArr _ => true | _ => false end.

(** [typeof v === 'string'] and [typeof v === 'object'] ([null] and
    arrays are objects to [typeof]). *)
Definition typeof_string (v : JsVal) : bool :=
  match v with JStr _ => true | _ => false end.

Definition typeof_object (v : JsVal) : bool :=
  match v with JNull | JArr _ | JObj _ => true | _ => false end.

Fixpoint own (props : list (string * JsVal)) (k : string) : option JsVal :=
  match props with
  | [] => None
  | (k', v) :: rest => if String.eqb k' k then Some v else own rest k
  end.

(** [v?.k] for the property names this program reads (none of them is
    a member of a built-in prototype): a missing property, and any
    property of a primitive, is [undefined]. *)
Definition oget (v : JsVal) (k : string) : JsVal :=
  match v with
  | JObj props => default JUndefined (own props k)
  | _ => JUndefined
  end.

(** [v.k]: reading a property of [null] or [undefined] throws a
    TypeError, rendered as [None]. *)
Definition get (v : JsVal) (k : string) : option JsVal :=
  match v with
  | JUndefined | JNull => None
  | _ => Some (oget v k)
  end.

(** [v?.[0]]: the first element of an array, the first character of a
    string, the property named 0 of an object. *)
Definition oget0 (v : JsVal) : JsVal :=
  match v with
  | JArr (x :: _) => x
  | JStr (String c _) => JStr (String c EmptyString)
  | JObj props => default JUndefined (own props "0")
  | _ => JUndefined
  end.

(** ToString, as applied by [String(v)] and by template literals.  An
    object from [JSON.parse] prints as [[object Object]] through
    [Object.prototype.toString]; when it has an own property named
    [toString] (never callable in JSON data) the conversion finds no
    primitive and throws a TypeError ([None]).  An array joins its
    elements with commas, [null] and [undefined] elements printing as
    the empty string. *)
Fixpoint toString (v : JsVal) : option string :=
  match v with
  | JUndefined => Some "undefined"
  | JNull => Some "null"
  | JBool true => Some "true"
  | JBool false => Some "false"
  | JNum n => Some (pretty n)
  | JDec shown => Some shown
  | JStr s => Some s
  | JArr items =>
      let elt x :=
        match x with
        | JUndefined | JNull => Some ""
        | _ => toString x
        end in
      (fix join (l : list JsVal) : option string :=
         match l with
         | [] => Some ""
         | [x] => elt x
         | x :: rest => a ← elt x; b ← join rest; Some (a +:+ "," +:+ b)
         end) items
  | JObj props =>
      match own props "toString" with
      | Some _ => None
      | None => Some "[object Object]"
      end
  end.

(** [s.slice(0, n)] *)
Fixpoint slice0 (n : nat) (s : string) : string :=
  match n, s with
  | S n', String c s' => String c (slice0 n' s')
  | _, _ => EmptyString
  end.

(** [s.startsWith(p)] *)
Fixpoint startsWith (s p : string) : bool :=
  match p, s with
  | EmptyString, _ => true
  | String a p', String b s' => Ascii.eqb a b && startsWith s' p'
  | String _ _, EmptyString => false
  end.

(** [s.includes(p)] *)
Fixpoint includes (s p : string) : bool :=
  startsWith s p ||
  match s with
  | EmptyString => false
  | String _ s' => includes s' p
  end.

(** [s.split(c)] for a one-character separator: always at least one
    piece. *)
Fixpoint split (c : ascii) (s : string) : list string :=
  match s with
  | EmptyString => [EmptyString]
  | String a s' =>
      if Ascii.eqb a c then EmptyString :: split c s'
      else match split c s' with
           | [] => [String a EmptyString]
           | p :: ps => String a p :: ps
           end
  end.

(** [pieces.join(c)] *)
Fixpoint join (c : string) (pieces : list string) : string :=
  match pieces with
  | [] => EmptyString
  | [p] => p
  | p :: rest => p +:+ c +:+ join c rest
  end.

End Js.

(** What the provider does with one outbound call: it answers with a
    status code and a raw body, or the call fails ([timeout] and [error]
    events) with an error message. *)
Inductive Upstream : Type :=
| UpReply (statusCode : Z) (data : string)
| UpFail (message : string).

(** The body of a chat-completions request. *)
Record ChatBody : Type := {
  model : JsVal;
  messages : list JsVal;
  temperature : Q;
  max_tokens : Z;
  stream : bool
}.

(** ** Effects

    A handler runs to completion and leaves a trace.  A response carries
    the status and the value handed to [JSON.stringify]; an outbound call
    carries the request body before serialisation; a log line
    carries its level, its message and the error message of its [extra]
    argument when there is one (the timestamp and the stack are left
    out). *)

Inductive Event : Type :=
| EvLog (level message : string) (extra : option string)
| EvRespond (status : Z) (payload : JsVal)
| EvOutbound (method path : string) (body : option ChatBody)
| EvDestroy
| EvDone (body : string)
| EvReadFile (file : string)
| EvServeFile (contentType : string) (data : string)
| EvThrow.

Definition Trace : Type := list Event.

(** A TypeError that nobody catches ends the handler. *)
Definition or_throw (t : option Trace) : Trace := default [EvThrow] t.

(** The runtime's JSON codec.  [JSON_parse] yields [None] where
    [JSON.parse] throws a SyntaxError. *)
Class JsonCodec : Type := {
  JSON_parse : string → option JsVal;
  JSON_stringify : JsVal → string
}.

(** The runtime's text functions.  [String_trim] is
    [String.prototype.trim].  [Buffer_toString] is
    [Buffer.prototype.toString('utf8')]: it decodes the bytes of a buffer
    and puts U+FFFD where they are not well-formed UTF-8, as at a
    character cut by the end of the buffer.  [URL_pathname url base] is
    [new URL(url, base).pathname], [None] where the constructor throws a
    TypeError. *)
Class TextRuntime : Type := {
  String_trim : string → string;
  Buffer_toString : string → string;
  URL_pathname : string → string → option string
}.

Definition MAX_CHAT_BYTES : Z := 20000000.

Definition model_entry (name : JsVal) : JsVal := JObj [("name", name)].

Definition GROQ_MODELS_FALLBACK : list JsVal :=
  model_entry <$>
    [JStr "meta-llama/llama-4-maverick-17b-128e-instruct";
     JStr "meta-llama/llama-4-scout-17b-16e-instruct";
     JStr "llama-3.3-70b-versatile";
     JStr "llama-3.1-8b-instant";
     JStr "llama3-70b-8192";
     JStr "llama3-8b-8192";
     JStr "gemma2-9b-it";
     JStr "mixtral-8x7b-32768"].

Definition MIME : gmap string string :=
  list_to_map
    [(".html", "text/html; charset=utf-8");
     (".js", "text/javascript; charset=utf-8");
     (".css", "text/css; charset=utf-8");
     (".json", "application/json; charset=utf-8")].

Definition log (level message : string) (extra : option string) : Trace :=
  [EvLog level message extra].

Definition sendJson (status : Z) (payload : JsVal) : Trace :=
  [EvRespond status payload].

Definition error_payload (message : string) : JsVal :=
  JObj [("error", JObj [("message", JStr message)])].

Definition jsonError (reqId : nat) (status : Z) (message : string)
    (err : option string) : Trace :=
  log "ERROR" ("[" +:+ pretty reqId +:+ "] " +:+ message) err
  ++ sendJson status (error_payload message).

(** ** Provider helpers and the two API handlers *)

Section Handlers.
Context {codec : JsonCodec}.

(** [GROQ_API_KEY] is read once at startup ([process.env.GROQ_API_KEY
    || '']). *)
Variable GROQ_API_KEY : string.

Definition missing_key_message : string :=
  "GROQ_API_KEY environment variable is not set. Start the server with: GROQ_API_KEY=your_key npm run dev".

(** [groqRequest]: without a key the error callback runs at once and
    nothing is sent; otherwise exactly one request leaves, and the
    provider's behaviour [net] selects the callback. *)
Definition groqRequest (method apiPath : string) (body : option ChatBody)
    (net : Upstream)
    (onDone : Z → string → Trace) (onError : string → Trace) : Trace :=
  match GROQ_API_KEY with
  | EmptyString => onError missing_key_message
  | String _ _ =>
      EvOutbound method apiPath body
      :: match net with
         | UpReply statusCode data => onDone statusCode data
         | UpFail message => onError message
         end
  end.

(** The regular expression [/whisper|tts|embed|guard/] matches a string
    that contains one of its four alternatives. *)
Definition blocklist : list string := ["whisper"; "tts"; "embed"; "guard"].

Definition blocklisted (id : string) : bool :=
  existsb (Js.includes id) blocklist.

(** The [filter] callback of [listModels]. *)
Definition is_chat_model (m : JsVal) : bool :=
  let id := match Js.oget m "id" with JStr s => s | _ => "" end in
  match id with
  | EmptyString => false
  | String _ _ => if blocklisted id then false else true
  end.

(** The [map] callback of [listModels]: [{ name: m.id }]. *)
Definition to_model_entry (m : JsVal) : option JsVal :=
  id ← Js.get m "id"; Some (model_entry id).

Definition models_payload (models : list JsVal) : JsVal :=
  JObj [("models", JArr models)].

Definition listModels_onDone (reqId : nat) (statusCode : Z) (data : string)
    : Trace :=
  if 400 <=? statusCode then
    log "WARN" ("[" +:+ pretty reqId +:+ "] Groq /openai/v1/models returned HTTP "
                +:+ pretty statusCode) None
    ++ sendJson 200 (models_payload GROQ_MODELS_FALLBACK)
  else
    match JSON_parse data with
    | None =>
        log "WARN" ("[" +:+ pretty reqId +:+ "] Groq /openai/v1/models returned non-JSON") None
        ++ sendJson 200 (models_payload GROQ_MODELS_FALLBACK)
    | Some parsed =>
        let rawModels :=
          match Js.oget parsed "data" with JArr l => l | _ => [] end in
        or_throw (
          chatModels ← mapM to_model_entry (List.filter is_chat_model rawModels);
          let models :=
            match chatModels with
            | [] => GROQ_MODELS_FALLBACK
            | _ :: _ => chatModels
            end in
          Some (sendJson 200 (models_payload models)))
    end.

Definition listModels_onError (reqId : nat) (message : string) : Trace :=
  log "WARN" ("[" +:+ pretty reqId +:+ "] Cannot fetch model list from Groq: "
              +:+ message) None
  ++ sendJson 200 (models_payload GROQ_MODELS_FALLBACK).

Definition listModels (reqId : nat) (net : Upstream) : Trace :=
  groqRequest "GET" "/openai/v1/models" None net
    (listModels_onDone reqId) (listModels_onError reqId).

(** *** Message reshaping *)

Definition text_block (text : string) : JsVal :=
  JObj [("type", JStr "text"); ("text", JStr text)].

Definition image_block (mime data : string) : JsVal :=
  JObj [("type", JStr "image_url");
        ("image_url",
         JObj [("url", JStr ("data:" +:+ mime +:+ ";base64," +:+ data))])].

(** One turn of the [for (const img of m.images)] loop on the [content]
    array built so far. *)
Definition push_image (content : list JsVal) (img : JsVal)
    : option (list JsVal) :=
  data ← match img with
          | JStr s => Some s
          | _ => Js.toString (Js.or (Js.oget img "data") (JStr ""))
          end;
  mime ← (if Js.typeof_object img && Js.truthy (Js.oget img "mime")
          then v ← Js.get img "mime"; Js.toString v
          else Some "image/png");
  match data with
  | EmptyString => Some content
  | String _ _ => Some (content ++ [image_block mime data])
  end.

Fixpoint push_images (content : list JsVal) (images : list JsVal)
    : option (list JsVal) :=
  match images with
  | [] => Some content
  | img :: rest => content' ← push_image content img; push_images content' rest
  end.

Definition chat_message (role content : JsVal) : JsVal :=
  JObj [("role", role); ("content", content)].

(** The callback of [messages.map] in [doGroqChat]. *)
Definition reshape (m : JsVal) : option JsVal :=
  match Js.oget m "images" with
  | JArr ((_ :: _) as images) =>
      text ← Js.get m "content";
      content0 ← (if Js.truthy text
                  then s ← Js.toString text; Some [text_block s]
                  else Some []);
      content ← push_images content0 images;
      match content with
      | [] =>
          role ← Js.get m "role";
          text' ← Js.get m "content";
          Some (chat_message role (Js.or text' (JStr "")))
      | _ :: _ =>
          role ← Js.get m "role";
          Some (chat_message role (JArr content))
      end
  | _ =>
      role ← Js.get m "role";
      content ← Js.get m "content";
      Some (chat_message role content)
  end.

(** *** The chat callbacks *)

Definition chat_onDone (reqId : nat) (statusCode : Z) (data : string)
    : Trace :=
  match JSON_parse data with
  | None =>
      jsonError reqId 502 ("Bad JSON from Groq: " +:+ Js.slice0 180 data) None
  | Some json =>
      if 400 <=? statusCode then
        let message :=
          Js.or (Js.or (Js.oget (Js.oget json "error") "message")
                       (Js.oget json "message"))
                (JStr "Groq returned an error") in
        or_throw (
          s ← Js.toString message;
          Some (jsonError reqId statusCode ("Groq error: " +:+ s) None))
      else
        let text :=
          Js.oget (Js.oget (Js.oget0 (Js.oget json "choices")) "message")
                  "content" in
        if Js.truthy text then
          sendJson 200 (JObj [("text", text)])
        else
          let preview := Js.slice0 280 (JSON_stringify json) in
          jsonError reqId 502
            ("Groq returned empty content. Response preview: " +:+ preview)
            None
  end.

Definition chat_onError (reqId : nat) (message : string) : Trace :=
  if Js.includes message "GROQ_API_KEY" then
    jsonError reqId 401 message (Some message)
  else
    jsonError reqId 502 ("Groq request failed: " +:+ message) (Some message).

Definition doGroqChat (reqId : nat) (model messages : JsVal)
    (net : Upstream) : Trace :=
  or_throw (
    groqMessages ← match messages with
                    | JArr l => mapM reshape l
                    | _ => None
                    end;
    let body := {| model := model; messages := groqMessages;
                   temperature := 4 # 10; max_tokens := 1500;
                   stream := false |} in
    shown ← Js.toString model;
    Some (log "INFO" ("[" +:+ pretty reqId +:+ "] Chat request -> Groq model="
                      +:+ shown) None
          ++ groqRequest "POST" "/openai/v1/chat/completions" (Some body) net
               (chat_onDone reqId) (chat_onError reqId))).

Definition proxyGroqChat (reqId : nat) (body : string) (net : Upstream)
    : Trace :=
  match JSON_parse body with
  | None => jsonError reqId 400 "Invalid JSON body" None
  | Some parsed =>
      if negb (Js.truthy (Js.oget parsed "model"))
         || negb (Js.isArray (Js.oget parsed "messages"))
      then jsonError reqId 400 "Invalid payload. Expected { model, messages[] }" None
      else
        or_throw (
          model ← Js.get parsed "model";
          messages ← Js.get parsed "messages";
          Some (doGroqChat reqId model messages net))
  end.

End Handlers.

(** ** Body reader

    [readBody] registers three listeners that share the variables [body],
    [done] and [bytes].  The request stream then delivers events one at a
    time; each listener is a step on the shared state. *)

Record BodyReader : Type := {
  body : string;
  done : bool;
  bytes : Z
}.

Inductive StreamEvent : Type :=
| OnData (chunk : string)
| OnEnd
| OnError (message : string).

Definition readBody_init : BodyReader :=
  {| body := ""; done := false; bytes := 0 |}.

(** A chunk is the string of its bytes: [chunk.length] counts them and
    [chunk.toString('utf8')] decodes them, chunk by chunk.  Calling
    [onDone] is marked in the trace by [EvDone], followed by what the
    callback does. *)
Definition readBody_on {runtime : TextRuntime} (reqId : nat) (limit : Z)
    (onDone : string → Trace) (st : BodyReader) (ev : StreamEvent)
    : BodyReader * Trace :=
  match ev with
  | OnData chunk =>
      let bytes' := bytes st + Z.of_nat (String.length chunk) in
      if limit <? bytes' then
        if done st then
          ({| body := body st; done := true; bytes := bytes' |}, [])
        else
          ({| body := body st; done := true; bytes := bytes' |},
           jsonError reqId 413
             ("Request body too large (limit " +:+ pretty limit +:+ " bytes)")
             None
           ++ [EvDestroy])
      else
        ({| body := body st +:+ Buffer_toString chunk; done := done st;
            bytes := bytes' |}, [])
  | OnEnd =>
      (st, if done st then [] else EvDone (body st) :: onDone (body st))
  | OnError message =>
      (st, if done st then []
           else jsonError reqId 400 "Failed to read request body" (Some message))
  end.

Fixpoint readBody_run {runtime : TextRuntime} (reqId : nat) (limit : Z)
    (onDone : string → Trace) (st : BodyReader) (evs : list StreamEvent)
    : BodyReader * Trace :=
  match evs with
  | [] => (st, [])
  | ev :: rest =>
      let '(st1, t1) := readBody_on reqId limit onDone st ev in
      let '(st2, t2) := readBody_run reqId limit onDone st1 rest in
      (st2, t1 ++ t2)
  end.

Definition readBody {runtime : TextRuntime} (reqId : nat) (limit : Z)
    (onDone : string → Trace) (evs : list StreamEvent) : BodyReader * Trace :=
  readBody_run reqId limit onDone readBody_init evs.

(** The [POST /api/chat] route of [requestHandler]. *)
Definition chatRoute {codec : JsonCodec} {runtime : TextRuntime}
    (GROQ_API_KEY : string) (reqId : nat) (net : Upstream)
    (evs : list StreamEvent) : Trace :=
  (readBody reqId MAX_CHAT_BYTES
     (λ body, proxyGroqChat GROQ_API_KEY reqId body net) evs).2.

(** ** Paths (Node's POSIX [path] module) *)

Module Path.

Definition isAbsolute (p : string) : bool :=
  match p with
  | String "/" _ => true
  | _ => false
  end.

(** One segment of [normalizeString]; [stack] holds the segments kept
    so far, the last one first. *)
Definition normalize_step (allowAboveRoot : bool) (stack : list string)
    (seg : string) : list string :=
  if decide (seg = "") then stack
  else if decide (seg = ".") then stack
  else if decide (seg = "..") then
    match stack with
    | top :: below =>
        if decide (top = "..")
        then (if allowAboveRoot then seg :: stack else stack)
        else below
    | [] => if allowAboveRoot then [seg] else []
    end
  else seg :: stack.

Definition normalizeString (path : string) (allowAboveRoot : bool) : string :=
  Js.join "/"
    (reverse (foldl (normalize_step allowAboveRoot) [] (Js.split "/" path))).

(** The right-to-left loop of [path.resolve]: arguments are prepended
    until one is absolute; the working directory comes last. *)
Fixpoint resolve_from (paths : list string) (cwd resolvedPath : string)
    : string * bool :=
  match paths with
  | [] =>
      match cwd with
      | EmptyString => (resolvedPath, false)
      | String _ _ => (cwd +:+ "/" +:+ resolvedPath, isAbsolute cwd)
      end
  | p :: rest =>
      match p with
      | EmptyString => resolve_from rest cwd resolvedPath
      | String _ _ =>
          let r := p +:+ "/" +:+ resolvedPath in
          if isAbsolute p then (r, true) else resolve_from rest cwd r
      end
  end.

Definition resolve (cwd : string) (args : list string) : string :=
  let '(resolvedPath, resolvedAbsolute) :=
    resolve_from (reverse args) cwd "" in
  let normalized := normalizeString resolvedPath (negb resolvedAbsolute) in
  if resolvedAbsolute then "/" +:+ normalized
  else match normalized with
       | EmptyString => "."
       | String _ _ => normalized
       end.

(** [path.extname]: from the last dot of the last component, unless
    there is no dot, nothing precedes it, or the component is [..]. *)
Definition extname (p : string) : string :=
  let base := List.last (Js.split "/" p) "" in
  match reverse (Js.split "." base) with
  | [] | [_] => ""
  | ext :: before =>
      if decide (Js.join "." (reverse before) = "") then ""
      else if decide (base = "..") then ""
      else "." +:+ ext
  end.

End Path.

(** ** Static files *)

Section Static.
(** [STATIC_ROOT] is [__dirname]; [cwd] is the working directory of
    the process; [fs] is the file system as [fs.readFile] sees it,
    [None] where the read fails. *)
Variable STATIC_ROOT : string.
Variable cwd : string.
Variable fs : string → option string.

Definition serveStatic (reqId : nat) (reqPath : string) : Trace :=
  let file := if decide (reqPath = "/") then "/math-solver.html" else reqPath in
  let root := Path.resolve cwd [STATIC_ROOT] +:+ "/" in
  let resolved := Path.resolve cwd [STATIC_ROOT; "." +:+ file] in
  if negb (Js.startsWith resolved root) then
    jsonError reqId 403 "Forbidden" None
  else
    EvReadFile resolved ::
    match fs resolved with
    | None => jsonError reqId 404 ("Not found: " +:+ file) None
    | Some data =>
        [EvServeFile
           (default "text/plain; charset=utf-8" (MIME !! Path.extname resolved))
           data]
    end.

End Static.

(** ** The [.env] loader *)

Module Env.

(** What a line assigns: the pair that [loadLine] writes, if any. *)
Definition entry {runtime : TextRuntime} (line : string)
    : option (string * string) :=
  match Js.split "=" (String_trim line) with
  | (String _ _ as key) :: ((_ :: _) as val) =>
      Some (String_trim key, String_trim (Js.join "=" val))
  | _ => None
  end.

(** The callback of [forEach]: one line of the file against
    [process.env]. *)
Definition loadLine {runtime : TextRuntime} (env : gmap string string)
    (line : string) : gmap string string :=
  match Js.split "=" (String_trim line) with
  | [] => env
  | key :: val =>
      match key, val with
      | String _ _, _ :: _ =>
          <[String_trim key := String_trim (Js.join "=" val)]> env
      | _, _ => env
      end
  end.

(** [dotenv] is the text of the file, [None] when
    [fs.existsSync(envPath)] is false. *)
Definition load {runtime : TextRuntime} (dotenv : option string)
    (env : gmap string string) : gmap string string :=
  match dotenv with
  | None => env
  | Some text => foldl loadLine env (Js.split "010" text)
  end.

End Env.

(** ** A JSON codec for the examples

    The theorems below hold for every codec.  Closed examples need one
    that runs: [MiniJson] reads and prints the fragment of JSON with
    integer numbers, ASCII strings and the two-character escapes, where
    it agrees with [JSON.parse] and [JSON.stringify]; the examples stay
    inside that fragment. *)

Module MiniJson.

Definition quote : ascii := "034".
Definition backslash : ascii := "092".

Definition is_ws (a : ascii) : bool :=
  match a with
  | " " | "009" | "010" | "013" => true
  | _ => false
  end%char.

Fixpoint skip_ws (s : string) : string :=
  match s with
  | EmptyString => EmptyString
  | String a s' => if is_ws a then skip_ws s' else s
  end.

Fixpoint digits (acc : Z) (s : string) : Z * string :=
  match s with
  | EmptyString => (acc, s)
  | String a s' =>
      match Ascii.is_nat a with
      | Some d => digits (10 * acc + Z.of_nat d) s'
      | None => (acc, s)
      end
  end.

(** A non-negative integer literal without a leading zero; a fraction
    or an exponent is outside the fragment. *)
Definition natural (s : string) : option (Z * string) :=
  match s with
  | String "0" s' => Some (0, s')
  | String a _ =>
      match Ascii.is_nat a with
      | Some _ => Some (digits 0 s)
      | None => None
      end
  | EmptyString => None
  end.

Definition integral (r : Z * string) : option (JsVal * string) :=
  match r.2 with
  | String "." _ | String "e" _ | String "E" _ => None
  | _ => Some (JNum r.1, r.2)
  end.

(** The characters of a string literal after its opening quote. *)
Fixpoint chars (s : string) : option (string * string) :=
  match s with
  | EmptyString => None
  | String a s' =>
      if Ascii.eqb a quote then Some (EmptyString, s')
      else if Ascii.eqb a backslash then
        match s' with
        | String e s'' =>
            c ← (if Ascii.eqb e quote then Some quote
                 else if Ascii.eqb e backslash then Some backslash
                 else match e with
                      | "/" => Some "/"
                      | "n" => Some "010"
                      | "t" => Some "009"
                      | "r" => Some "013"
                      | "b" => Some "008"
                      | "f" => Some "012"
                      | _ => None
                      end%char);
            '(str, rest) ← chars s'';
            Some (String c str, rest)
        | EmptyString => None
        end
      else if (nat_of_ascii a <? 32)%nat then None
      else '(str, rest) ← chars s'; Some (String a str, rest)
  end.

Definition literal (word : string) (v : JsVal) (s : string)
    : option (JsVal * string) :=
  if Js.startsWith s word
  then Some (v, String.substring (String.length word) (String.length s) s)
  else None.

Fixpoint set_prop (k : string) (v : JsVal) (props : list (string * JsVal))
    : list (string * JsVal) :=
  match props with
  | [] => [(k, v)]
  | (k', v') :: rest =>
      if String.eqb k' k then (k, v) :: rest else (k', v') :: set_prop k v rest
  end.

Fixpoint value (fuel : nat) (s : string) : option (JsVal * string) :=
  match fuel with
  | O => None
  | S fuel' =>
      match skip_ws s with
      | String "n" _ as t => literal "null" JNull t
      | String "t" _ as t => literal "true" (JBool true) t
      | String "f" _ as t => literal "false" (JBool false) t
      | String "-" t => r ← natural t; integral (- r.1, r.2)
      | String "[" t =>
          match skip_ws t with
          | String "]" rest => Some (JArr [], rest)
          | t' => '(items, rest) ← elements fuel' t'; Some (JArr items, rest)
          end
      | String "{" t =>
          match skip_ws t with
          | String "}" rest => Some (JObj [], rest)
          | t' => '(props, rest) ← members fuel' [] t'; Some (JObj props, rest)
          end
      | String a t as whole =>
          if Ascii.eqb a quote then '(str, rest) ← chars t; Some (JStr str, rest)
          else r ← natural whole; integral r
      | EmptyString => None
      end
  end
with elements (fuel : nat) (s : string) : option (list JsVal * string) :=
  match fuel with
  | O => None
  | S fuel' =>
      '(v, rest) ← value fuel' s;
      match skip_ws rest with
      | String "," t => '(vs, rest') ← elements fuel' t; Some (v :: vs, rest')
      | String "]" t => Some ([v], t)
      | _ => None
      end
  end
with members (fuel : nat) (acc : list (string * JsVal)) (s : string)
    : option (list (string * JsVal) * string) :=
  match fuel with
  | O => None
  | S fuel' =>
      match skip_ws s with
      | String a t =>
          if Ascii.eqb a quote then
            '(k, rest) ← chars t;
            match skip_ws rest with
            | String ":" t' =>
                '(v, rest') ← value fuel' t';
                let acc' := set_prop k v acc in
                match skip_ws rest' with
                | String "," t'' => members fuel' acc' t''
                | String "}" t'' => Some (acc', t'')
                | _ => None
                end
            | _ => None
            end
          else None
      | EmptyString => None
      end
  end.

Definition parse (s : string) : option JsVal :=
  '(v, rest) ← value (S (String.length s)) s;
  match skip_ws rest with
  | EmptyString => Some v
  | String _ _ => None
  end.

Fixpoint escape (s : string) : string :=
  match s with
  | EmptyString => EmptyString
  | String a s' =>
      if Ascii.eqb a quote || Ascii.eqb a backslash
      then String backslash (String a (escape s'))
      else String a (escape s')
  end.

Definition quoted (s : string) : string :=
  String quote (escape s) +:+ String quote EmptyString.

Fixpoint stringify (v : JsVal) : string :=
  match v with
  | JUndefined | JNull => "null"
  | JBool true => "true"
  | JBool false => "false"
  | JNum n => pretty n
  | JDec shown => shown
  | JStr s => quoted s
  | JArr items =>
      "[" +:+ Js.join "," ((fix each (l : list JsVal) : list string :=
                              match l with
                              | [] => []
                              | x :: rest => stringify x :: each rest
                              end) items) +:+ "]"
  | JObj props =>
      "{" +:+ Js.join "," ((fix each (l : list (string * JsVal)) : list string :=
                              match l with
                              | [] => []
                              | (_, JUndefined) :: rest => each rest
                              | (k, x) :: rest =>
                                  (quoted k +:+ ":" +:+ stringify x) :: each rest
                              end) props) +:+ "}"
  end.

Definition codec : JsonCodec :=
  {| JSON_parse := parse; JSON_stringify := stringify |}.

(** Writes a JSON text with single quotes standing for double quotes. *)
Fixpoint text (s : string) : string :=
  match s with
  | EmptyString => EmptyString
  | String a s' => String (if Ascii.eqb a "'" then quote else a) (text s')
  end.

End MiniJson.

(** ** Text functions for the examples

    The theorems below hold for every [TextRuntime].  Closed examples
    use [PlainText], which agrees with the runtime on ASCII text: [trim]
    strips the ASCII white space, decoding bytes below 128 changes
    nothing, and the path name of a request target that is a plain
    absolute path (letters, digits, [-], [_], [.], [~] and [/], no dot
    segment, not starting with two slashes) is the target up to its
    query or fragment.  Outside that fragment [pathname] gives [None];
    the examples stay inside it. *)

Module PlainText.

Fixpoint trimStart (s : string) : string :=
  match s with
  | EmptyString => EmptyString
  | String a s' => if Ascii.is_space a then trimStart s' else s
  end.

Definition trim (s : string) : string :=
  String.rev (trimStart (String.rev (trimStart s))).

Fixpoint before_query (s : string) : string :=
  match s with
  | EmptyString => EmptyString
  | String a s' =>
      if Ascii.eqb a "?" || Ascii.eqb a "#" then EmptyString
      else String a (before_query s')
  end.

Definition path_char (a : ascii) : bool :=
  let n := nat_of_ascii a in
  ((48 <=? n) && (n <=? 57) || (65 <=? n) && (n <=? 90)
   || (97 <=? n) && (n <=? 122))%nat
  || Ascii.eqb a "-" || Ascii.eqb a "_" || Ascii.eqb a "."
  || Ascii.eqb a "~" || Ascii.eqb a "/".

Fixpoint all_chars (ok : ascii → bool) (s : string) : bool :=
  match s with
  | EmptyString => true
  | String a s' => ok a && all_chars ok s'
  end.

Definition pathname (url base : string) : option string :=
  let path := before_query url in
  if Js.startsWith path "/" && negb (Js.startsWith path "//")
     && all_chars path_char path
     && forallb (λ seg, negb (String.eqb seg ".") && negb (String.eqb seg ".."))
          (Js.split "/" path)
  then Some path else None.

Definition runtime : TextRuntime :=
  {| String_trim := trim;
     Buffer_toString := λ chunk, chunk;
     URL_pathname := pathname |}.

End PlainText.


(** ** Request bodies as chunks *)

(** The number of bytes in a sequence of chunks, and their text. *)
Definition byteLength (chunks : list string) : Z :=
  foldr (λ chunk n, Z.of_nat (String.length chunk) + n) 0 chunks.

Definition chunks_text (chunks : list string) : string :=
  foldr String.app "" chunks.

Definition too_large (reqId : nat) (limit : Z) : Trace :=
  [EvLog "ERROR"
     ("[" +:+ pretty reqId +:+ "] Request body too large (limit "
      +:+ pretty limit +:+ " bytes)") None;
   EvRespond 413
     (error_payload ("Request body too large (limit " +:+ pretty limit +:+ " bytes)"));
   EvDestroy].

(** ** Containment of paths

    The components of a path, and what it means for a path to lie in a
    directory: the directory's components begin the path's.  A path
    escapes the directory when it does not lie in it. *)

Definition path_components (p : string) : list string :=
  List.filter (λ seg, negb (String.eqb seg "")) (Js.split "/" p).


Definition static_file (reqPath : string) : string :=
  if decide (reqPath = "/") then "/math-solver.html" else reqPath.

(** A name: a path segment that is not empty, not a dot segment, and
    holds no separator. *)
Definition is_name (seg : string) : Prop :=
  seg ≠ "" ∧ seg ≠ "." ∧ seg ≠ ".." ∧ Js.split "/" seg = [seg].

(** ** Observations on traces *)

(** The responses a handler writes, in order. *)
Fixpoint responses (t : Trace) : list (Z * JsVal) :=
  match t with
  | [] => []
  | EvRespond status payload :: t' => (status, payload) :: responses t'
  | _ :: t' => responses t'
  end.

(** The requests a handler sends to the provider. *)
Fixpoint outbound (t : Trace) : list (string * string * option ChatBody) :=
  match t with
  | [] => []
  | EvOutbound method path b :: t' => (method, path, b) :: outbound t'
  | _ :: t' => outbound t'
  end.

(** [frag] occurs in [s]. *)
Definition has_substring (frag s : string) : Prop :=
  ∃ pre post, s = pre +:+ frag +:+ post.

(** ** Chat messages as the data model has them

    A chat message carries a role, a text and optionally a sequence of
    image attachments; an attachment is a bare base64 string (the legacy
    form) or an object with [data] and an optional [mime]. *)

Inductive Attachment : Type :=
| LegacyImage (data : string)
| Image (data : string) (mime : option string).

Record ChatMessage : Type := {
  msg_role : string;
  msg_content : string;
  msg_images : option (list Attachment)
}.

Definition attachment_js (a : Attachment) : JsVal :=
  match a with
  | LegacyImage data => JStr data
  | Image data None => JObj [("data", JStr data)]
  | Image data (Some mime) => JObj [("data", JStr data); ("mime", JStr mime)]
  end.

Definition message_js (m : ChatMessage) : JsVal :=
  JObj ([("role", JStr (msg_role m)); ("content", JStr (msg_content m))]
        ++ match msg_images m with
           | None => []
           | Some atts => [("images", JArr (attachment_js <$> atts))]
           end).

Definition attachment_data (a : Attachment) : string :=
  match a with
  | LegacyImage data | Image data _ => data
  end.

(** The MIME type of an attachment: the one it specifies, [image/png]
    when it specifies none (no [mime], or an empty one). *)
Definition attachment_mime (a : Attachment) : string :=
  match a with
  | Image _ (Some (String _ _ as mime)) => mime
  | _ => "image/png"
  end.

Definition has_data (a : Attachment) : bool :=
  match attachment_data a with
  | EmptyString => false
  | String _ _ => true
  end.

(** The blocks the specification lists for a message with attachments:
    a text block when the text is not empty, then one image block per
    attachment that has data, in order. *)
Definition spec_blocks (content : string) (atts : list Attachment) : list JsVal :=
  match content with
  | EmptyString => []
  | String _ _ => [JObj [("type", JStr "text"); ("text", JStr content)]]
  end
  ++ ((λ a, JObj [("type", JStr "image_url");
                  ("image_url",
                   JObj [("url", JStr ("data:" +:+ attachment_mime a +:+ ";base64,"
                                       +:+ attachment_data a))])])
        <$> List.filter has_data atts).

(** ** The request handler

    [requestHandler] takes the next request id from [requestCounter],
    has the URL parser extract the path name from the request target
    ([req.url]) against a base made of the [Host] header, and routes on
    the method and that path name; when the parser throws, the TypeError
    ends the handler.  The preflight answer is written with [writeHead]
    and [end], without [sendJson].  The [finish] listener logs one line
    once a response has been written; [elapsedMs] is the time it
    measures. *)

Inductive ServerEvent : Type :=
| Ran (e : Event)
| EvPreflight (status : Z) (headers : list (string * string)).

Definition preflight_headers : list (string * string) :=
  [("Access-Control-Allow-Origin", "*");
   ("Access-Control-Allow-Methods", "POST, GET, OPTIONS");
   ("Access-Control-Allow-Headers", "Content-Type")].

(** [res.statusCode] when the response finishes: the status of the
    first response written. *)
Fixpoint final_status (evs : list ServerEvent) : option Z :=
  match evs with
  | [] => None
  | EvPreflight status _ :: _ => Some status
  | Ran (EvRespond status _) :: _ => Some status
  | Ran (EvServeFile _ _) :: _ => Some 200
  | _ :: rest => final_status rest
  end.

Definition health_payload (GROQ_API_KEY : string) (uptimeSec : Z) : JsVal :=
  JObj [("ok", JBool true); ("uptimeSec", JNum uptimeSec);
        ("apiKey", JStr (match GROQ_API_KEY with
                         | EmptyString => "MISSING"
                         | String _ _ => "set"
                         end))].

Section Server.
Context {codec : JsonCodec} {runtime : TextRuntime}.
Variables (GROQ_API_KEY STATIC_ROOT cwd : string) (fs : string → option string).

(** The handlers proper, before the [finish] line. *)
Definition dispatch (reqId : nat) (method pathname : string) (uptimeSec : Z)
    (net : Upstream) (evs : list StreamEvent) : list ServerEvent :=
  if decide (method = "OPTIONS") then
    [EvPreflight 204 preflight_headers]
  else if decide (method = "GET" ∧ pathname = "/health") then
    Ran <$> sendJson 200 (health_payload GROQ_API_KEY uptimeSec)
  else if decide (method = "GET" ∧ pathname = "/api/models") then
    Ran <$> listModels GROQ_API_KEY reqId net
  else if decide (method = "POST" ∧ pathname = "/api/chat") then
    Ran <$> chatRoute GROQ_API_KEY reqId net evs
  else if Js.startsWith pathname "/api/" then
    Ran <$> jsonError reqId 404
              ("Unknown API route: " +:+ method +:+ " " +:+ pathname) None
  else
    Ran <$> serveStatic STATIC_ROOT cwd fs reqId pathname.

(** [`http://${req.headers.host || 'localhost'}`] *)
Definition url_base (host : option string) : string :=
  "http://" +:+ match host with
                | Some (String _ _ as h) => h
                | _ => "localhost"
                end.

(** The handlers and the [finish] line, once the path name is known. *)
Definition handle (reqId : nat) (method pathname : string)
    (uptimeSec elapsedMs : Z) (net : Upstream) (evs : list StreamEvent)
    : list ServerEvent :=
  let handled := dispatch reqId method pathname uptimeSec net evs in
  handled ++
  match final_status handled with
  | Some statusCode =>
      [Ran (EvLog "HTTP"
              ("[" +:+ pretty reqId +:+ "] " +:+ method +:+ " " +:+ pathname
               +:+ " -> " +:+ pretty statusCode +:+ " (" +:+ pretty elapsedMs
               +:+ "ms)") None)]
  | None => []
  end.

Definition requestHandler (requestCounter : nat) (method url : string)
    (host : option string) (uptimeSec elapsedMs : Z) (net : Upstream)
    (evs : list StreamEvent) : nat * list ServerEvent :=
  let reqId := S requestCounter in
  (reqId,
   match URL_pathname url (url_base host) with
   | None => [Ran EvThrow]
   | Some pathname =>
       handle reqId method pathname uptimeSec elapsedMs net evs
   end).

End Server.

(** The handler effects of a request, the preflight answer apart. *)
Definition handler_trace (evs : list ServerEvent) : Trace :=
  omap (λ ev, match ev with Ran e => Some e | EvPreflight _ _ => None end) evs.

(** The files a handler reads. *)
Fixpoint files_read (t : Trace) : list string :=
  match t with
  | [] => []
  | EvReadFile file :: t' => file :: files_read t'
  | _ :: t' => files_read t'
  end.

(** An image block of a reshaped message. *)
Definition is_image_block (b : JsVal) : Prop :=
  ∃ mime data, data ≠ "" ∧
    b = JObj [("type", JStr "image_url");
              ("image_url",
               JObj [("url", JStr ("data:" +:+ mime +:+ ";base64," +:+ data))])].

(** [json?.choices?.[0]?.message?.content], the text that [doGroqChat]
    extracts from a reply. *)
Definition completion_text (json : JsVal) : JsVal :=
  Js.oget (Js.oget (Js.oget0 (Js.oget json "choices")) "message") "content".

(** How [doGroqChat] answers a reply or a failure of the provider: a
    TypeError, the text of the reply, or an error. *)
Inductive Answered {codec : JsonCodec} (reqId : nat) (net : Upstream)
    : Trace → Prop :=
| answered_throw : Answered reqId net [EvThrow]
| answered_text statusCode data json :
    net = UpReply statusCode data → statusCode < 400 →
    JSON_parse data = Some json →
    Js.truthy (completion_text json) = true →
    Answered reqId net (sendJson 200 (JObj [("text", completion_text json)]))
| answered_error status message err :
    400 ≤ status →
    Answered reqId net (jsonError reqId status message err).

(** An event that touches the file system. *)
Definition touches_files (e : Event) : Prop :=
  match e with
  | EvReadFile _ | EvServeFile _ _ => True
  | _ => False
  end.

Definition fallback_names : list string :=
  ["meta-llama/llama-4-maverick-17b-128e-instruct";
   "meta-llama/llama-4-scout-17b-16e-instruct";
   "llama-3.3-70b-versatile";
   "llama-3.1-8b-instant";
   "llama3-70b-8192";
   "llama3-8b-8192";
   "gemma2-9b-it";
   "mixtral-8x7b-32768"].

(** A usable model name: not empty, and free of the blocklisted
    fragments. *)
Definition usable_name (name : string) : Prop :=
  name ≠ "" ∧ ∀ frag, frag ∈ ["whisper"; "tts"; "embed"; "guard"] →
                      ¬ has_substring frag name.

(** * Properties *)

(** ** The [.env] loader *)

Section EnvLoader.
Context {runtime : TextRuntime}.
Implicit Types (env : gmap string string) (line text k v : string).

Lemma loadLine_entry env line :
  Env.loadLine env line =
    match Env.entry line with
    | Some (k, v) => <[k := v]> env
    | None => env
    end.
Proof.
  unfold Env.loadLine, Env.entry.
  destruct (Js.split "=" (String_trim line)) as [|key val]; [done|].
  destruct key, val; done.
Qed.

Lemma foldl_loadLine_other env (ls : list string) k :
  (∀ l, l ∈ ls → fst <$> Env.entry l ≠ Some k) →
  foldl Env.loadLine env ls !! k = env !! k.
Proof.
  revert env. induction ls as [|l ls IH]; intros env Hno; [done|].
  cbn [foldl]. rewrite IH.
  - rewrite loadLine_entry.
    specialize (Hno l (list_elem_of_here _ _)).
    destruct (Env.entry l) as [[k' v']|]; [|done].
    apply lookup_insert_ne. intros ->. by apply Hno.
  - intros l' Hl'. apply Hno. by apply list_elem_of_further.
Qed.

(** C7, as the code has it: the loader assigns unconditionally.  A key
    holds afterwards the value of the last line of the file that names
    it, whatever it held before; a key that no line names, and every
    key when there is no file, is unchanged. *)
Theorem env_load_last_entry_wins text env k :
  (∀ pre line post v,
      Js.split "010" text = pre ++ line :: post →
      Env.entry line = Some (k, v) →
      (∀ l, l ∈ post → fst <$> Env.entry l ≠ Some k) →
      Env.load (Some text) env !! k = Some v)
  ∧ ((∀ l, l ∈ Js.split "010" text → fst <$> Env.entry l ≠ Some k) →
     Env.load (Some text) env !! k = env !! k)
  ∧ Env.load None env = env.
Proof.
  split; [|split]; [| |done].
  - intros pre line post v Hsplit Hentry Hpost. unfold Env.load.
    rewrite Hsplit, foldl_app. cbn [foldl].
    rewrite foldl_loadLine_other by done.
    rewrite loadLine_entry, Hentry. apply lookup_insert_eq.
  - intros Hno. by apply foldl_loadLine_other.
Qed.

End EnvLoader.

(** C7 as claimed fails: [PORT] is set before loading and the file
    replaces its value. *)
Lemma env_load_overwrites :
  let env : gmap string string := {[ "PORT" := "8080" ]} in
  env !! "PORT" = Some "8080"
  ∧ Env.load (runtime := PlainText.runtime) (Some "PORT=3000") env !! "PORT"
    = Some "3000".
Proof. split; vm_compute; reflexivity. Qed.

Lemma env_load_last_entry_wins_witness :
  let env : gmap string string := {[ "PORT" := "8080" ]} in
  Env.load (runtime := PlainText.runtime) (Some "PORT=3000
KEY=a
PORT = 4000") env !! "PORT" = Some "4000"
  ∧ Env.load (runtime := PlainText.runtime) (Some "KEY=a") env !! "PORT"
    = Some "8080".
Proof.
  split.
  - apply (proj1 (env_load_last_entry_wins (runtime := PlainText.runtime) _ _ "PORT")
             ["PORT=3000"; "KEY=a"] "PORT = 4000" []);
      [reflexivity | reflexivity | intros l Hl; by apply elem_of_nil in Hl].
  - rewrite (proj1 (proj2 (env_load_last_entry_wins (runtime := PlainText.runtime)
                             "KEY=a" _ "PORT"))); [reflexivity|].
    intros l Hl. apply list_elem_of_singleton in Hl as ->. vm_compute. discriminate.
Defined.

(** ** Strings *)

Lemma string_app_cons x (a b : string) : String x a +:+ b = String x (a +:+ b).
Proof. reflexivity. Qed.

Lemma string_app_assoc (a b c : string) : (a +:+ b) +:+ c = a +:+ (b +:+ c).
Proof. induction a as [|x a IH]; [done|]. rewrite !string_app_cons. by rewrite IH. Qed.

Lemma string_app_empty_r (a : string) : a +:+ "" = a.
Proof. induction a as [|x a IH]; [done|]. rewrite string_app_cons. by rewrite IH. Qed.

(** ** The body reader *)

Section BodyReader.
Context {runtime : TextRuntime}.
Variables (reqId : nat) (limit : Z) (onDone : string → Trace).

Local Abbreviation run := (readBody_run reqId limit onDone).

(** Once the limit has tripped, no event has any effect: nothing is
    written, [onDone] is not called, [body] stays as it is. *)
Lemma run_after_trip st evs :
  done st = true → limit < bytes st →
  (run st evs).2 = []
  ∧ body (run st evs).1 = body st
  ∧ done (run st evs).1 = true.
Proof.
  revert st. induction evs as [|ev evs IH]; intros st Hdone Hbytes; [done|].
  cbn [readBody_run].
  destruct (readBody_on reqId limit onDone st ev) as [st1 t1] eqn:Hstep.
  assert (t1 = [] ∧ body st1 = body st ∧ done st1 = true ∧ limit < bytes st1)
    as (-> & Hb & Hd & Hl).
  { destruct ev as [chunk| |msg]; cbn in Hstep; rewrite ?Hdone in Hstep.
    - destruct (Z.ltb_spec limit (bytes st + Z.of_nat (String.length chunk)));
        [|lia].
      injection Hstep as <- <-. cbn. repeat split; lia.
    - injection Hstep as <- <-. done.
    - injection Hstep as <- <-. done. }
  destruct (IH st1 Hd Hl) as (Ht & Hb' & Hd').
  destruct (run st1 evs) as [st2 t2]. cbn in *. subst t2.
  repeat split; congruence.
Qed.

(** Data events up to and including the one that crosses the limit. *)
Lemma run_data_trip st chunks rest :
  done st = false → bytes st ≤ limit → limit < bytes st + byteLength chunks →
  ∃ kept dropped,
    chunks = kept ++ dropped
    ∧ bytes st + byteLength kept ≤ limit
    ∧ (run st ((OnData <$> chunks) ++ rest)).2 = too_large reqId limit
    ∧ body (run st ((OnData <$> chunks) ++ rest)).1
      = body st +:+ chunks_text (Buffer_toString <$> kept)
    ∧ done (run st ((OnData <$> chunks) ++ rest)).1 = true.
Proof.
  revert st. induction chunks as [|chunk chunks IH]; intros st Hdone Hfit Hover.
  { cbn in Hover. lia. }
  cbn [fmap list_fmap app readBody_run]. cbn [byteLength foldr] in Hover.
  fold (byteLength chunks) in Hover.
  cbn [readBody_on]. rewrite Hdone.
  destruct (Z.ltb_spec limit (bytes st + Z.of_nat (String.length chunk)))
    as [Htrip|Hok].
  - exists [], (chunk :: chunks).
    match goal with |- context [run ?s ?e] =>
      destruct (run_after_trip s e) as (Ht & Hb & Hd); [done|cbn; lia|] end.
    match goal with |- context [run ?s ?e] =>
      destruct (run s e) as [st2 t2] end.
    cbn in *. subst t2. rewrite string_app_empty_r.
    repeat split; try done. lia.
  - match goal with |- context [run ?s _] =>
      destruct (IH s) as (kept & dropped & -> & Hk & Ht & Hb & Hd);
        [done|cbn; lia|cbn; lia|] end.
    exists (chunk :: kept), dropped.
    match goal with |- context [run ?s ?e] =>
      destruct (run s e) as [st2 t2] end.
    cbn in *. fold (byteLength kept). rewrite <- string_app_assoc.
    repeat split; try done. lia.
Qed.

(** C6: when the chunks of a request body add up to more than the
    limit, the whole interaction (the chunks, then whatever events
    follow) writes exactly one response, the 413, destroys the request
    once and never calls [onDone]; [body] holds the text of the chunks
    received before the limit was crossed and nothing more. *)
Theorem readBody_over_limit chunks rest :
  0 ≤ limit → limit < byteLength chunks →
  ∃ kept dropped,
    chunks = kept ++ dropped
    ∧ byteLength kept ≤ limit
    ∧ (readBody reqId limit onDone ((OnData <$> chunks) ++ rest)).2
      = too_large reqId limit
    ∧ body (readBody reqId limit onDone ((OnData <$> chunks) ++ rest)).1
      = chunks_text (Buffer_toString <$> kept)
    ∧ done (readBody reqId limit onDone ((OnData <$> chunks) ++ rest)).1 = true.
Proof.
  intros Hlimit Hover. unfold readBody.
  destruct (run_data_trip readBody_init chunks rest)
    as (kept & dropped & ? & ? & ? & ? & ?); [done|done|cbn; lia|].
  exists kept, dropped. cbn in *. repeat split; try done.
Qed.

End BodyReader.

Lemma readBody_over_limit_witness :
  (readBody (runtime := PlainText.runtime) 7 4 (λ b, [EvDone b])
     ((OnData <$> ["ab"; "cd"; "e"; "f"]) ++ [OnData "g"; OnEnd; OnError "aborted"])).2
  = too_large 7 4.
Proof.
  destruct (readBody_over_limit (runtime := PlainText.runtime) 7 4
              (λ b, [EvDone b]) ["ab"; "cd"; "e"; "f"]
              [OnData "g"; OnEnd; OnError "aborted"])
    as (kept & dropped & _ & _ & Ht & _); [lia | vm_compute; reflexivity | exact Ht].
Defined.

(** The chat route reads its body under [MAX_CHAT_BYTES]: a body of more
    than 20,000,000 bytes never reaches [proxyGroqChat]. *)
Lemma chatRoute_over_limit {codec : JsonCodec} {runtime : TextRuntime}
    (GROQ_API_KEY : string)
    (reqId : nat) (net : Upstream) (chunks : list string) (rest : list StreamEvent) :
  20000000 < byteLength chunks →
  chatRoute GROQ_API_KEY reqId net ((OnData <$> chunks) ++ rest)
  = too_large reqId 20000000.
Proof.
  intros Hover. unfold chatRoute, readBody.
  destruct (run_data_trip reqId MAX_CHAT_BYTES
              (λ body, proxyGroqChat GROQ_API_KEY reqId body net)
              readBody_init chunks rest)
    as (kept & dropped & _ & _ & Htrace & _); [done|done|exact Hover|].
  exact Htrace.
Qed.

Lemma startsWith_app (s p : string) :
  Js.startsWith s p = true → ∃ r, s = p +:+ r.
Proof.
  revert s. induction p as [|a p IH]; intros s Hs.
  - by exists s.
  - destruct s as [|b s]; [done|]. cbn in Hs.
    apply andb_prop in Hs as [Hab Hs]. apply Ascii.eqb_eq in Hab as ->.
    destruct (IH s Hs) as [r ->]. by exists r.
Qed.

Lemma split_nonempty c (s : string) : Js.split c s ≠ [].
Proof.
  destruct s as [|a s]; [done|]. cbn.
  destruct (Ascii.eqb a c); [done|]. by destruct (Js.split c s).
Qed.

(** Splitting at a separator splits the pieces. *)
Lemma split_app c (a b : string) :
  Js.split c (a +:+ String c b) = Js.split c a ++ Js.split c b.
Proof.
  induction a as [|x a IH].
  - change ("" +:+ String c b) with (String c b). cbn.
    by rewrite Ascii.eqb_refl.
  - rewrite string_app_cons. cbn. rewrite IH.
    destruct (Ascii.eqb x c); [done|].
    pose proof (split_nonempty c a). by destruct (Js.split c a).
Qed.


(** ** The static file server *)

Section StaticFiles.
Variables (STATIC_ROOT cwd : string) (fs : string → option string).

Local Abbreviation root := (Path.resolve cwd [STATIC_ROOT]).
Local Abbreviation resolved reqPath :=
  (Path.resolve cwd [STATIC_ROOT; "." +:+ static_file reqPath]).


Lemma serveStatic_cases reqId reqPath :
  serveStatic STATIC_ROOT cwd fs reqId reqPath =
    if Js.startsWith (resolved reqPath) (root +:+ "/") then
      EvReadFile (resolved reqPath) ::
      match fs (resolved reqPath) with
      | None => jsonError reqId 404 ("Not found: " +:+ static_file reqPath) None
      | Some data =>
          [EvServeFile
             (default "text/plain; charset=utf-8"
                (MIME !! Path.extname (resolved reqPath))) data]
      end
    else jsonError reqId 403 "Forbidden" None.
Proof.
  unfold serveStatic, static_file.
  by destruct (Js.startsWith _ _).
Qed.


End StaticFiles.


(** ** Resolved paths are canonical *)

Lemma split_piece c (s p : string) : p ∈ Js.split c s → Js.split c p = [p].
Proof.
  revert p. induction s as [|a s IH]; intros p Hp.
  - apply list_elem_of_singleton in Hp as ->. done.
  - cbn in Hp. destruct (Ascii.eqb a c) eqn:Hac.
    + apply elem_of_cons in Hp as [->|Hp]; [done|by apply IH].
    + pose proof (split_nonempty c s) as Hne.
      destruct (Js.split c s) as [|q qs]; [done|].
      apply elem_of_cons in Hp as [->|Hp].
      * cbn. rewrite Hac, (IH q); [done|by left].
      * apply IH. by right.
Qed.

Lemma normalize_step_names (stack : list string) (seg : string) :
  Forall is_name stack → Js.split "/" seg = [seg] →
  Forall is_name (Path.normalize_step false stack seg).
Proof.
  intros Hstack Hseg. unfold Path.normalize_step.
  repeat case_decide; try done.
  - destruct stack as [|top below]; [done|].
    case_decide; [done|]. by apply Forall_inv_tail in Hstack.
  - by constructor.
Qed.

Lemma normalize_names (stack pieces : list string) :
  Forall is_name stack → Forall (λ p, Js.split "/" p = [p]) pieces →
  Forall is_name (foldl (Path.normalize_step false) stack pieces).
Proof.
  revert stack. induction pieces as [|p pieces IH]; intros stack Hstack Hpieces;
    [done|].
  apply Forall_cons in Hpieces as [Hp Hpieces]. cbn.
  apply IH; [by apply normalize_step_names|done].
Qed.

Lemma split_join_names (segs : list string) :
  Forall is_name segs → segs ≠ [] → Js.split "/" (Js.join "/" segs) = segs.
Proof.
  induction segs as [|p segs IH]; [done|]. intros Hnames _.
  apply Forall_cons in Hnames as [(_ & _ & _ & Hp) Hnames].
  destruct segs as [|q segs]; [done|].
  change (Js.join "/" (p :: q :: segs))
    with (p +:+ String "/" (Js.join "/" (q :: segs))).
  by rewrite split_app, Hp, IH.
Qed.

Lemma filter_names (segs : list string) :
  Forall is_name segs →
  List.filter (λ seg, negb (String.eqb seg "")) segs = segs.
Proof.
  induction 1 as [|p segs (Hne & _) _ IH]; [done|]. cbn.
  destruct (String.eqb_spec p ""); [done|]. cbn. by rewrite IH.
Qed.

Lemma components_of_names (segs : list string) :
  Forall is_name segs → path_components ("/" +:+ Js.join "/" segs) = segs.
Proof.
  intros Hnames. unfold path_components.
  change ("/" +:+ Js.join "/" segs) with (String "/" (Js.join "/" segs)).
  cbn [Js.split]. rewrite Ascii.eqb_refl. cbn [List.filter String.eqb negb].
  destruct segs as [|p segs]; [done|].
  by rewrite split_join_names, filter_names.
Qed.

(** When the right-to-left loop of [path.resolve] meets an absolute
    argument, the result is [/] followed by names joined by [/]: no empty
    segment, no [.], no [..]. *)
Lemma resolve_absolute_canonical (cwd : string) (args : list string) :
  (Path.resolve_from (reverse args) cwd "").2 = true →
  Forall is_name (path_components (Path.resolve cwd args))
  ∧ Path.resolve cwd args = "/" +:+ Js.join "/" (path_components (Path.resolve cwd args)).
Proof.
  unfold Path.resolve.
  destruct (Path.resolve_from (reverse args) cwd "") as [resolvedPath absolute].
  cbn. intros ->. cbn. unfold Path.normalizeString.
  set (pieces := Js.split "/" resolvedPath).
  assert (Forall is_name (reverse (foldl (Path.normalize_step false) [] pieces)))
    as Hnames.
  { apply Forall_reverse, normalize_names; [done|].
    apply Forall_forall. intros p Hp. by eapply split_piece. }
  by rewrite components_of_names.
Qed.

Lemma static_paths_canonical (STATIC_ROOT cwd rel : string) :
  Path.isAbsolute STATIC_ROOT = true →
  Forall is_name (path_components (Path.resolve cwd [STATIC_ROOT]))
  ∧ Forall is_name (path_components (Path.resolve cwd [STATIC_ROOT; "." +:+ rel])).
Proof.
  intros Habs. split; apply resolve_absolute_canonical.
  - destruct STATIC_ROOT; [done|]. cbn -[Path.isAbsolute]. by rewrite Habs.
  - change ("." +:+ rel) with (String "." rel).
    destruct STATIC_ROOT; [done|]. cbn -[Path.isAbsolute]. by rewrite Habs.
Qed.

Lemma startsWith_app_l (p r : string) : Js.startsWith (p +:+ r) p = true.
Proof.
  induction p as [|a p IH]; [by destruct r|].
  rewrite string_app_cons. cbn. by rewrite Ascii.eqb_refl, IH.
Qed.

Lemma includes_unfold (s p : string) :
  Js.includes s p =
    Js.startsWith s p
    || match s with EmptyString => false | String _ s' => Js.includes s' p end.
Proof. by destruct s. Qed.

(** [includes] decides occurrence. *)
Lemma includes_spec (s p : string) :
  Js.includes s p = true ↔ has_substring p s.
Proof.
  split.
  - induction s as [|a s IH]; rewrite includes_unfold;
      intros [Hs|Hs]%orb_prop; try discriminate.
    + apply startsWith_app in Hs as [r ->]. by exists "", r.
    + apply startsWith_app in Hs as [r ->]. by exists "", r.
    + destruct (IH Hs) as (pre & post & ->). by exists (String a pre), post.
  - intros (pre & post & ->). induction pre as [|a pre IH].
    + rewrite includes_unfold.
      change ("" +:+ p +:+ post) with (p +:+ post).
      by rewrite startsWith_app_l.
    + rewrite string_app_cons, includes_unfold, IH. apply orb_true_r.
Qed.

(** ** Model discovery *)

Section Models.
Context {codec : JsonCodec}.
Variable GROQ_API_KEY : string.

(** What the filter of [listModels] keeps: entries whose [id] is a
    non-empty string in which no blocklisted fragment occurs. *)
Lemma is_chat_model_spec (m : JsVal) :
  is_chat_model m = true ↔
  ∃ id, Js.oget m "id" = JStr id ∧ id ≠ ""
        ∧ ∀ frag, frag ∈ ["whisper"; "tts"; "embed"; "guard"] →
                  ¬ has_substring frag id.
Proof.
  unfold is_chat_model, blocklisted, blocklist. cbn [existsb].
  split.
  - destruct (Js.oget m "id") as [| | | | |id| |]; try discriminate.
    destruct id as [|a id]; [discriminate|].
    set (s := String a id).
    destruct (Js.includes s "whisper") eqn:H1; [discriminate|].
    destruct (Js.includes s "tts") eqn:H2; [discriminate|].
    destruct (Js.includes s "embed") eqn:H3; [discriminate|].
    destruct (Js.includes s "guard") eqn:H4; [discriminate|].
    intros _. exists s. split; [done|]. split; [done|].
    intros frag Hfrag Hsub. apply includes_spec in Hsub.
    repeat (apply elem_of_cons in Hfrag as [->|Hfrag]; [congruence|]).
    by apply elem_of_nil in Hfrag.
  - intros (id & -> & Hne & Hno). destruct id as [|a id]; [done|].
    set (s := String a id) in *.
    assert (∀ frag, frag ∈ ["whisper"; "tts"; "embed"; "guard"] →
                    Js.includes s frag = false) as Hfalse.
    { intros frag Hfrag. destruct (Js.includes s frag) eqn:Hi; [|done].
      apply includes_spec in Hi. by destruct (Hno frag). }
    rewrite !Hfalse; [done|..]; repeat constructor.
Qed.

Lemma to_model_entry_kept (m : JsVal) :
  is_chat_model m = true →
  to_model_entry m = Some (model_entry (Js.oget m "id")).
Proof.
  unfold is_chat_model, to_model_entry.
  destruct m; try discriminate. done.
Qed.

Lemma mapM_to_model_entry (ms : list JsVal) :
  mapM to_model_entry (List.filter is_chat_model ms)
  = Some ((λ m, model_entry (Js.oget m "id")) <$> List.filter is_chat_model ms).
Proof.
  induction ms as [|m ms IH]; [done|]. cbn [List.filter].
  destruct (is_chat_model m) eqn:Hm; [|done].
  cbn. rewrite (to_model_entry_kept m Hm). cbn.
  by rewrite IH.
Qed.

(** The reply callback of [listModels] below status 400, on a body
    that parses. *)
Lemma listModels_onDone_parsed reqId statusCode data parsed :
  statusCode < 400 → JSON_parse data = Some parsed →
  listModels_onDone reqId statusCode data =
    let kept := List.filter is_chat_model
                  (match Js.oget parsed "data" with JArr l => l | _ => [] end) in
    sendJson 200
      (models_payload
         (match kept with
          | [] => GROQ_MODELS_FALLBACK
          | _ :: _ => (λ m, model_entry (Js.oget m "id")) <$> kept
          end)).
Proof.
  intros Hstatus Hparse. unfold listModels_onDone.
  destruct (Z.leb_spec 400 statusCode); [lia|].
  rewrite Hparse, mapM_to_model_entry. cbn.
  by destruct (List.filter _ _).
Qed.

(** C8: on a listing (status below 400, a JSON body whose [data] is an
    array) the filter keeps exactly the entries whose [id] is a
    non-empty string containing none of [whisper], [tts], [embed],
    [guard]; the reply is one response with status 200 whose [models]
    holds, for each kept entry in order, the object with the single
    property [name] set to that entry's [id] (the hardcoded list when
    none is kept). *)
Theorem listModels_filters reqId statusCode data parsed entries :
  statusCode < 400 →
  JSON_parse data = Some parsed →
  Js.oget parsed "data" = JArr entries →
  (∀ m, m ∈ List.filter is_chat_model entries ↔
        m ∈ entries
        ∧ ∃ id, Js.oget m "id" = JStr id ∧ id ≠ ""
                ∧ ∀ frag, frag ∈ ["whisper"; "tts"; "embed"; "guard"] →
                          ¬ has_substring frag id)
  ∧ listModels_onDone reqId statusCode data =
      [EvRespond 200
         (JObj [("models",
                 JArr (match List.filter is_chat_model entries with
                       | [] => GROQ_MODELS_FALLBACK
                       | kept => (λ m, JObj [("name", Js.oget m "id")]) <$> kept
                       end))])].
Proof.
  intros Hstatus Hparse Hdata. split.
  - intros m. rewrite list_elem_of_In, List.filter_In, <- list_elem_of_In.
    by rewrite is_chat_model_spec.
  - rewrite (listModels_onDone_parsed _ _ _ _ Hstatus Hparse), Hdata. cbn.
    by destruct (List.filter _ _).
Qed.


End Models.

Lemma listModels_filters_witness :
  listModels_onDone (codec := MiniJson.codec) 1 200
    (MiniJson.text "{'object':'list','data':[{'id':'llama-3'},{'id':'whisper-large'},{'id':7},{'id':'distil-tts'},{'owner':'x'},{'id':'gemma'}]}")
  = [EvRespond 200
       (JObj [("models", JArr [JObj [("name", JStr "llama-3")];
                               JObj [("name", JStr "gemma")]])])].
Proof.
  etrans.
  - refine (proj2 (listModels_filters (codec := MiniJson.codec) 1 200 _ _ _ _ _ _));
      [lia | reflexivity | reflexivity].
  - reflexivity.
Defined.


(** ** Message reshaping *)

Section Reshape.

Lemma push_image_attachment (content : list JsVal) (a : Attachment) :
  push_image content (attachment_js a) =
    Some (if has_data a
          then content ++ [image_block (attachment_mime a) (attachment_data a)]
          else content).
Proof.
  destruct a as [data|data [mime|]]; unfold push_image, has_data; cbn.
  - by destruct data.
  - destruct mime, data; done.
  - by destruct data.
Qed.

Lemma push_images_attachments (content : list JsVal) (atts : list Attachment) :
  push_images content (attachment_js <$> atts) =
    Some (content
          ++ ((λ a, image_block (attachment_mime a) (attachment_data a))
                <$> List.filter has_data atts)).
Proof.
  revert content. induction atts as [|a atts IH]; intros content.
  - cbn. by rewrite app_nil_r.
  - cbn [fmap list_fmap push_images List.filter].
    rewrite push_image_attachment. cbn [mbind option_bind].
    rewrite IH. destruct (has_data a); [|done].
    by rewrite <- app_assoc.
Qed.

Lemma oget_images (m : ChatMessage) :
  Js.oget (message_js m) "images" =
    match msg_images m with
    | Some atts => JArr (attachment_js <$> atts)
    | None => JUndefined
    end.
Proof. unfold message_js. by destruct (msg_images m). Qed.

Lemma get_content (m : ChatMessage) :
  Js.get (message_js m) "content" = Some (JStr (msg_content m)).
Proof. reflexivity. Qed.

Lemma get_role (m : ChatMessage) :
  Js.get (message_js m) "role" = Some (JStr (msg_role m)).
Proof. reflexivity. Qed.

Lemma reshape_with_images (m : ChatMessage) (a : Attachment) (atts : list Attachment) :
  msg_images m = Some (a :: atts) →
  reshape (message_js m) =
    Some (chat_message (JStr (msg_role m))
            (match spec_blocks (msg_content m) (a :: atts) with
             | [] => JStr (msg_content m)
             | blocks => JArr blocks
             end)).
Proof.
  intros Himages. unfold reshape.
  rewrite oget_images, Himages, !get_content, !get_role.
  cbn [fmap list_fmap].
  change (attachment_js a :: list_fmap _ _ attachment_js atts)
    with (attachment_js <$> a :: atts).
  cbn [mbind option_bind].
  destruct (msg_content m) as [|c text] eqn:Hcontent;
    cbn [Js.truthy Js.toString mbind option_bind];
    rewrite (push_images_attachments _ (a :: atts)); cbn [mbind option_bind app];
    unfold spec_blocks; cbn [app].
  - by destruct (_ <$> List.filter has_data (a :: atts)).
  - done.
Qed.

(** C1: reshaping a chat message.  With an attachment that has data,
    the content is the non-empty list of blocks: the text block exactly
    when the text is not empty, then an image block per attachment that
    has data, in order, with the URL [data:<mime>;base64,<data>].  With
    attachments but no block, and without attachments, the message is
    [{role, content}] with its text. *)
Theorem reshape_message (m : ChatMessage) :
  (∀ atts a, msg_images m = Some atts → a ∈ atts → attachment_data a ≠ "" →
     spec_blocks (msg_content m) atts ≠ []
     ∧ reshape (message_js m) =
         Some (JObj [("role", JStr (msg_role m));
                     ("content", JArr (spec_blocks (msg_content m) atts))]))
  ∧ (∀ atts, msg_images m = Some atts → atts ≠ [] →
     spec_blocks (msg_content m) atts = [] →
     reshape (message_js m) =
       Some (JObj [("role", JStr (msg_role m)); ("content", JStr (msg_content m))]))
  ∧ (msg_images m = None ∨ msg_images m = Some [] →
     reshape (message_js m) =
       Some (JObj [("role", JStr (msg_role m)); ("content", JStr (msg_content m))])).
Proof.
  split; [|split].
  - intros atts a Himages Ha Hdata.
    assert (spec_blocks (msg_content m) atts ≠ []) as Hblocks.
    { unfold spec_blocks. intros [_ Hnil]%app_eq_nil.
      apply fmap_nil_inv in Hnil.
      assert (a ∈ List.filter has_data atts) as Hin.
      { apply list_elem_of_In, List.filter_In. split; [by apply list_elem_of_In|].
        unfold has_data. by destruct (attachment_data a). }
      rewrite Hnil in Hin. by apply elem_of_nil in Hin. }
    split; [done|].
    destruct atts as [|a0 atts]; [by apply elem_of_nil in Ha|].
    rewrite (reshape_with_images m a0 atts Himages).
    by destruct (spec_blocks _ _).
  - intros atts Himages Hne Hnil.
    destruct atts as [|a0 atts]; [done|].
    by rewrite (reshape_with_images m a0 atts Himages), Hnil.
  - intros [Himages|Himages]; unfold reshape;
      by rewrite oget_images, Himages, get_content, get_role.
Qed.

End Reshape.

Lemma reshape_message_witness :
  reshape
    (message_js {| msg_role := "user"; msg_content := "solve";
                   msg_images := Some [Image "" (Some "image/gif");
                                       Image "QUJD" (Some "image/jpeg");
                                       LegacyImage "REVG";
                                       Image "R0hJ" None] |})
  = Some (JObj [("role", JStr "user");
                ("content",
                 JArr [text_block "solve";
                       image_block "image/jpeg" "QUJD";
                       image_block "image/png" "REVG";
                       image_block "image/png" "R0hJ"])]).
Proof.
  refine (proj2 (proj1 (reshape_message
                          {| msg_role := "user"; msg_content := "solve";
                             msg_images := Some [Image "" (Some "image/gif");
                                                 Image "QUJD" (Some "image/jpeg");
                                                 LegacyImage "REVG";
                                                 Image "R0hJ" None] |})
                   _ (LegacyImage "REVG") eq_refl _ _)).
  - repeat constructor.
  - discriminate.
Defined.

(** ** The chat handler *)

Lemma slice0_prefix (n : nat) (s : string) :
  Js.startsWith s (Js.slice0 n s) = true
  ∧ String.length (Js.slice0 n s) = (n `min` String.length s)%nat.
Proof.
  revert s. induction n as [|n IH]; intros [|a s]; try done.
  cbn. rewrite Ascii.eqb_refl. destruct (IH s) as [-> ->]. done.
Qed.


Section Chat.
Context {codec : JsonCodec}.
Variable GROQ_API_KEY : string.

(** C2: a body that is not JSON, a parsed body without [model], and a
    parsed body whose [messages] is not an array are each answered
    with one 400 response carrying [{error: {message}}]; nothing is
    sent to the provider. *)
Theorem proxyGroqChat_rejects reqId body net :
  JSON_parse body = None
  ∨ (∃ parsed, JSON_parse body = Some parsed
               ∧ (Js.oget parsed "model" = JUndefined
                  ∨ Js.isArray (Js.oget parsed "messages") = false)) →
  ∃ message,
    proxyGroqChat GROQ_API_KEY reqId body net = jsonError reqId 400 message None
    ∧ responses (proxyGroqChat GROQ_API_KEY reqId body net)
      = [(400, JObj [("error", JObj [("message", JStr message)])])]
    ∧ outbound (proxyGroqChat GROQ_API_KEY reqId body net) = [].
Proof.
  unfold proxyGroqChat.
  intros [->|(parsed & -> & [Hmodel|Hmessages])].
  - by eexists.
  - rewrite Hmodel. by eexists.
  - rewrite Hmessages, orb_true_r. by eexists.
Qed.

(** C9: a reply whose body is not JSON is answered 502 whatever its
    status, with a message that ends in the first 180 characters of the
    body. *)
Theorem chat_bad_json_502 reqId statusCode data :
  JSON_parse data = None →
  chat_onDone reqId statusCode data
  = [EvLog "ERROR" ("[" +:+ pretty reqId +:+ "] Bad JSON from Groq: "
                    +:+ Js.slice0 180 data) None;
     EvRespond 502
       (JObj [("error",
               JObj [("message", JStr ("Bad JSON from Groq: " +:+ Js.slice0 180 data))])])]
  ∧ Js.startsWith data (Js.slice0 180 data) = true
  ∧ String.length (Js.slice0 180 data) = (180 `min` String.length data)%nat.
Proof.
  intros Hparse. unfold chat_onDone. rewrite Hparse.
  split; [done|]. apply slice0_prefix.
Qed.



Lemma outbound_jsonError reqId status message err :
  outbound (jsonError reqId status message err) = [].
Proof. reflexivity. Qed.



End Chat.

Lemma proxyGroqChat_rejects_witness :
  (∃ message,
     proxyGroqChat (codec := MiniJson.codec) "gsk_live" 1 "{model: x" (UpFail "unused")
     = jsonError 1 400 message None
     ∧ responses (proxyGroqChat (codec := MiniJson.codec) "gsk_live" 1 "{model: x"
                    (UpFail "unused"))
       = [(400, JObj [("error", JObj [("message", JStr message)])])]
     ∧ outbound (proxyGroqChat (codec := MiniJson.codec) "gsk_live" 1 "{model: x"
                   (UpFail "unused")) = [])
  ∧ (∃ message,
       proxyGroqChat (codec := MiniJson.codec) "gsk_live" 2
         (MiniJson.text "{'model':'x','messages':{'role':'user'}}") (UpFail "unused")
       = jsonError 2 400 message None
       ∧ responses (proxyGroqChat (codec := MiniJson.codec) "gsk_live" 2
                      (MiniJson.text "{'model':'x','messages':{'role':'user'}}")
                      (UpFail "unused"))
         = [(400, JObj [("error", JObj [("message", JStr message)])])]
       ∧ outbound (proxyGroqChat (codec := MiniJson.codec) "gsk_live" 2
                     (MiniJson.text "{'model':'x','messages':{'role':'user'}}")
                     (UpFail "unused")) = []).
Proof.
  split.
  - apply (proxyGroqChat_rejects (codec := MiniJson.codec)). left. reflexivity.
  - apply (proxyGroqChat_rejects (codec := MiniJson.codec)). right.
    eexists. split; [reflexivity|]. right. reflexivity.
Defined.

Lemma chat_bad_json_502_witness :
  responses (chat_onDone (codec := MiniJson.codec) 4 500 "<html>upstream down</html>")
  = [(502, error_payload "Bad JSON from Groq: <html>upstream down</html>")].
Proof.
  rewrite (proj1 (chat_bad_json_502 (codec := MiniJson.codec) 4 500
                    "<html>upstream down</html>" eq_refl)).
  reflexivity.
Defined.





(** ** The scenarios of the specification *)

Example parse_chat :
  MiniJson.parse (MiniJson.text "{'model':'x','messages':[{'role':'user','content':'2+2'}]}")
  = Some (JObj [("model", JStr "x");
                ("messages", JArr [JObj [("role", JStr "user"); ("content", JStr "2+2")]])]).
Proof. vm_compute. reflexivity. Qed.

Example chat_scenario_ok :
  responses
    (chatRoute (codec := MiniJson.codec) (runtime := PlainText.runtime) "gsk_live" 1
       (UpReply 200 (MiniJson.text "{'choices':[{'message':{'content':'4'}}]}"))
       [OnData (MiniJson.text "{'model':'x','messages':");
        OnData (MiniJson.text "[{'role':'user','content':'2+2'}]}");
        OnEnd])
  = [(200, JObj [("text", JStr "4")])].
Proof. vm_compute. reflexivity. Qed.

Example chat_scenario_upstream_500 :
  responses
    (chatRoute (codec := MiniJson.codec) (runtime := PlainText.runtime) "gsk_live" 2
       (UpReply 500 (MiniJson.text "{'error':{'message':'boom'}}"))
       [OnData (MiniJson.text "{'model':'x','messages':[{'role':'user','content':'2+2'}]}");
        OnEnd])
  = [(500, error_payload "Groq error: boom")].
Proof. vm_compute. reflexivity. Qed.

Example chat_scenario_missing_key :
  responses
    (chatRoute (codec := MiniJson.codec) (runtime := PlainText.runtime) "" 3 (UpFail "unused")
       [OnData (MiniJson.text "{'model':'x','messages':[]}"); OnEnd])
  = [(401, error_payload missing_key_message)].
Proof. vm_compute. reflexivity. Qed.

Example static_scenarios :
  let fs path := if decide (path = "/srv/app/math-solver.html") then Some "<html>" else None in
  serveStatic "/srv/app" "/" fs 1 "/" = [EvReadFile "/srv/app/math-solver.html";
                                         EvServeFile "text/html; charset=utf-8" "<html>"]
  ∧ responses (serveStatic "/srv/app" "/" fs 2 "/../app-private/key.pem")
    = [(403, error_payload "Forbidden")]
  ∧ responses (serveStatic "/srv/app" "/" fs 3 "/missing.css")
    = [(404, error_payload "Not found: /missing.css")].
Proof. vm_compute. repeat split. Qed.

(** * Further properties of the code *)

(** ** The body reader below the limit *)

Section BodyDelivery.
Context {runtime : TextRuntime}.
Variables (reqId : nat) (limit : Z) (onDone : string → Trace).

Local Abbreviation run := (readBody_run reqId limit onDone).




End BodyDelivery.


(** ** Reshaping arbitrary JSON messages *)

Section ReshapeShape.

Lemma push_image_shape (content content' : list JsVal) (img : JsVal) :
  push_image content img = Some content' →
  content' = content ∨ ∃ b, is_image_block b ∧ content' = content ++ [b].
Proof.
  unfold push_image. intros Hpush.
  apply bind_Some in Hpush as (data & _ & Hpush).
  apply bind_Some in Hpush as (mime & _ & Hpush).
  destruct data as [|c data]; simplify_eq; [by left|].
  right. eexists. split; [|done]. by exists mime, (String c data).
Qed.

Lemma push_images_shape (images content content' : list JsVal) :
  push_images content images = Some content' →
  ∃ added, content' = content ++ added
           ∧ Forall is_image_block added
           ∧ (length added ≤ length images)%nat.
Proof.
  revert content. induction images as [|img images IH]; intros content Hpush.
  - cbn in Hpush. simplify_eq. exists []. by rewrite app_nil_r.
  - cbn in Hpush. apply bind_Some in Hpush as (content1 & Hone & Hrest).
    destruct (IH _ Hrest) as (added & -> & Hadded & Hlen).
    destruct (push_image_shape _ _ _ Hone) as [->|(b & Hb & ->)].
    + exists added. cbn. repeat split; [done|lia].
    + exists (b :: added). rewrite <- app_assoc. cbn.
      repeat split; [by constructor|lia].
Qed.

(** The role part alone, for any message that reshapes. *)
Lemma reshape_shape_role (m g : JsVal) :
  reshape m = Some g →
  ∃ content, g = JObj [("role", Js.oget m "role"); ("content", content)].
Proof.
  unfold reshape. intros Hreshape.
  assert (∀ k v, Js.get m k = Some v → v = Js.oget m k) as Hget.
  { intros k v. destruct m; cbn; congruence. }
  destruct (Js.oget m "images") as [| | | | | | [|img images] |];
    try (apply bind_Some in Hreshape as (role & Hrole%Hget & Hreshape);
         apply bind_Some in Hreshape as (content & _ & Hreshape);
         exists content; unfold chat_message in Hreshape; congruence).
  apply bind_Some in Hreshape as (text & _ & Hreshape).
  apply bind_Some in Hreshape as (content0 & _ & Hreshape).
  apply bind_Some in Hreshape as (content & _ & Hreshape).
  destruct content;
    apply bind_Some in Hreshape as (role & Hrole%Hget & Hreshape).
  - apply bind_Some in Hreshape as (text' & _ & Hreshape).
    eexists. unfold chat_message in Hreshape. by simplify_eq.
  - eexists. unfold chat_message in Hreshape. by simplify_eq.
Qed.

(** X2: whatever JSON value a message is, when reshaping it succeeds the
    result has exactly the two properties [role] and [content], with the
    role of the message.  Without a non-empty [images] array the content
    is that of the message, untouched.  With one, the content is either
    the empty string (the text is falsy and no image has data) or a
    non-empty list: a text block holding the text when it is truthy,
    then image blocks only, at most one per image. *)
Theorem reshape_shape (m g : JsVal) :
  reshape m = Some g →
  ∃ content,
    g = JObj [("role", Js.oget m "role"); ("content", content)]
    ∧ match Js.oget m "images" with
      | JArr (img :: images) =>
          ∃ texts added,
            (length added ≤ length (img :: images))%nat
            ∧ Forall is_image_block added
            ∧ (if Js.truthy (Js.oget m "content")
               then ∃ s, Js.toString (Js.oget m "content") = Some s
                         ∧ texts = [JObj [("type", JStr "text"); ("text", JStr s)]]
               else texts = [])
            ∧ content = match texts ++ added with
                        | [] => JStr ""
                        | blocks => JArr blocks
                        end
      | _ => content = Js.oget m "content"
      end.
Proof.
  unfold reshape. intros Hreshape.
  assert (∀ k, Js.get m k = Some (Js.oget m k) ∨ Js.get m k = None) as Hget.
  { intros k. destruct m; by (left + right). }
  destruct (Js.oget m "images") as [| | | | | | [|img images] |] eqn:Himages;
    try (apply bind_Some in Hreshape as (role & Hrole & Hreshape);
         apply bind_Some in Hreshape as (content & Hcontent & Hreshape);
         destruct (Hget "role") as [Hr|Hr]; [|congruence];
         destruct (Hget "content") as [Hc|Hc]; [|congruence];
         exists content; split; [|congruence];
         unfold chat_message in Hreshape; congruence).
  apply bind_Some in Hreshape as (text & Htext & Hreshape).
  apply bind_Some in Hreshape as (content0 & Hcontent0 & Hreshape).
  apply bind_Some in Hreshape as (content & Hcontent & Hreshape).
  destruct (Hget "content") as [Hc|Hc]; [|congruence].
  destruct (Hget "role") as [Hr|Hr];
    [|rewrite Hr in Hreshape; by destruct content].
  rewrite Hr, Hc in Hreshape. rewrite Hc in Htext. simplify_eq.
  destruct (push_images_shape _ _ _ Hcontent) as (added & -> & Hadded & Hlen).
  assert (∃ texts,
            content0 = texts
            ∧ (if Js.truthy (Js.oget m "content")
               then ∃ s, Js.toString (Js.oget m "content") = Some s
                         ∧ texts = [JObj [("type", JStr "text"); ("text", JStr s)]]
               else texts = [])) as (texts & -> & Htexts).
  { exists content0. split; [done|].
    destruct (Js.truthy (Js.oget m "content")); [|by simplify_eq].
    apply bind_Some in Hcontent0 as (s & Hs & ?). simplify_eq. by exists s. }
  destruct (texts ++ added) as [|b blocks] eqn:Hblocks.
  - cbn in Hreshape. simplify_eq.
    eexists. split; [reflexivity|]. exists texts, added.
    rewrite Hblocks. repeat split; try done.
    apply app_eq_nil in Hblocks as [-> _].
    unfold Js.or. destruct (Js.truthy (Js.oget m "content")); [|done].
    by destruct Htexts as (? & _ & ?).
  - cbn in Hreshape. simplify_eq.
    eexists. split; [reflexivity|]. exists texts, added.
    by rewrite Hblocks.
Qed.

End ReshapeShape.

Lemma reshape_shape_witness :
  let m := JObj [("role", JStr "user"); ("content", JNum 0);
                 ("images", JArr [JStr ""; JObj [("data", JNum 5)]]);
                 ("name", JStr "dropped")] in
  let g := JObj [("role", JStr "user");
                 ("content", JArr [image_block "image/png" "5"])] in
  reshape m = Some g
  ∧ ∃ content, g = JObj [("role", Js.oget m "role"); ("content", content)].
Proof.
  intros m g. split; [reflexivity|].
  destruct (reshape_shape m g eq_refl) as (content & Hg & _). by exists content.
Defined.

(** ** Every chat request is answered once *)


Lemma outbound_app (t1 t2 : Trace) :
  outbound (t1 ++ t2) = outbound t1 ++ outbound t2.
Proof.
  induction t1 as [|e t1 IH]; [done|]. destruct e; cbn; by rewrite ?IH.
Qed.

Lemma files_read_app (t1 t2 : Trace) :
  files_read (t1 ++ t2) = files_read t1 ++ files_read t2.
Proof.
  induction t1 as [|e t1 IH]; [done|]. destruct e; cbn; by rewrite ?IH.
Qed.

Section ChatAnswers.
Context {codec : JsonCodec}.
Variable GROQ_API_KEY : string.

Lemma chat_onDone_answered reqId statusCode data :
  Answered reqId (UpReply statusCode data) (chat_onDone reqId statusCode data).
Proof.
  unfold chat_onDone.
  destruct (JSON_parse data) as [json|] eqn:Hparse; [|by constructor].
  destruct (Z.leb_spec 400 statusCode).
  - destruct (Js.toString _); cbn; by constructor.
  - fold (completion_text json).
    destruct (Js.truthy (completion_text json)) eqn:Htext.
    + by econstructor.
    + by constructor.
Qed.

Lemma chat_onError_answered reqId net message :
  Answered reqId net (chat_onError reqId message).
Proof. unfold chat_onError. destruct (Js.includes _ _); by constructor. Qed.

Lemma chat_onError_missing_key reqId :
  chat_onError reqId missing_key_message
  = jsonError reqId 401 missing_key_message (Some missing_key_message).
Proof.
  unfold chat_onError.
  assert (Js.includes missing_key_message "GROQ_API_KEY" = true) as ->
    by (vm_compute; reflexivity).
  done.
Qed.

Lemma callbacks_answered reqId net :
  Answered reqId net
    (match net with
     | UpReply statusCode data => chat_onDone reqId statusCode data
     | UpFail message => chat_onError reqId message
     end).
Proof.
  destruct net; [apply chat_onDone_answered|apply chat_onError_answered].
Qed.

(** The traces of [doGroqChat]: a TypeError before anything happens, or
    the log line, at most one request, and one answer. *)
Lemma doGroqChat_cases reqId mdl msgs net :
  doGroqChat GROQ_API_KEY reqId mdl msgs net = [EvThrow]
  ∨ ∃ info sent answer,
      doGroqChat GROQ_API_KEY reqId mdl msgs net
      = EvLog "INFO" info None :: sent ++ answer
      ∧ Answered reqId net answer
      ∧ ((GROQ_API_KEY = "" ∧ sent = []
          ∧ answer = jsonError reqId 401 missing_key_message (Some missing_key_message))
         ∨ (GROQ_API_KEY ≠ "" ∧ ∃ ms gm,
              msgs = JArr ms ∧ mapM reshape ms = Some gm
              ∧ sent = [EvOutbound "POST" "/openai/v1/chat/completions"
                          (Some {| model := mdl; messages := gm;
                                   temperature := 4 # 10; max_tokens := 1500;
                                   stream := false |})]
              ∧ answer = match net with
                         | UpReply statusCode data => chat_onDone reqId statusCode data
                         | UpFail message => chat_onError reqId message
                         end)).
Proof.
  unfold doGroqChat.
  destruct msgs as [| | | | | |ms|]; try by left.
  destruct (mapM reshape ms) as [gm|] eqn:Hms; [|by left].
  cbn [mbind option_bind].
  destruct (Js.toString mdl) as [shown|]; [|by left].
  right. cbn [mbind option_bind or_throw default from_option id log app].
  unfold groqRequest. destruct GROQ_API_KEY as [|c key] eqn:Hkey.
  - eexists _, [], (chat_onError reqId missing_key_message).
    split; [reflexivity|]. split; [apply chat_onError_answered|].
    left. by rewrite chat_onError_missing_key.
  - eexists _, [_], (match net with
                     | UpReply statusCode data => chat_onDone reqId statusCode data
                     | UpFail message => chat_onError reqId message
                     end).
    split; [reflexivity|].
    split; [apply callbacks_answered|]. right. split; [done|].
    by exists ms, gm.
Qed.

Lemma answered_responses reqId net answer :
  Answered reqId net answer →
  outbound answer = [] ∧ files_read answer = []
  ∧ ((responses answer = [] ∧ EvThrow ∈ answer)
     ∨ (∃ statusCode data json,
          net = UpReply statusCode data ∧ statusCode < 400
          ∧ JSON_parse data = Some json
          ∧ Js.truthy (completion_text json) = true
          ∧ responses answer = [(200, JObj [("text", completion_text json)])])
     ∨ (∃ status message,
          400 ≤ status ∧ responses answer = [(status, error_payload message)])).
Proof.
  intros [|statusCode data json Hnet Hstatus Hparse Htext|status message err Hstatus].
  - repeat split. left. split; [done|]. by left.
  - repeat split. right. left. by exists statusCode, data, json.
  - repeat split. right. right. by exists status, message.
Qed.


(** X4: how a request that validates, reshapes and prints is answered
    when the provider cannot be reached.  Without a key the answer is 401
    with the configuration message and nothing is sent.  With a key, a
    failed call is answered 502 with [Groq request failed: ] and the
    error message, unless that message mentions [GROQ_API_KEY], in which
    case the answer is 401 with the message itself. *)
Theorem chat_failure_status reqId mdl ms gm shown net :
  mapM reshape ms = Some gm →
  Js.toString mdl = Some shown →
  (GROQ_API_KEY = "" →
   responses (doGroqChat GROQ_API_KEY reqId mdl (JArr ms) net)
   = [(401, error_payload missing_key_message)]
   ∧ outbound (doGroqChat GROQ_API_KEY reqId mdl (JArr ms) net) = [])
  ∧ (∀ message, GROQ_API_KEY ≠ "" → net = UpFail message →
       (has_substring "GROQ_API_KEY" message →
        responses (doGroqChat GROQ_API_KEY reqId mdl (JArr ms) net)
        = [(401, error_payload message)])
       ∧ (¬ has_substring "GROQ_API_KEY" message →
          responses (doGroqChat GROQ_API_KEY reqId mdl (JArr ms) net)
          = [(502, error_payload ("Groq request failed: " +:+ message))])).
Proof.
  intros Hms Hshown. unfold doGroqChat, groqRequest. rewrite Hms, Hshown.
  cbn [mbind option_bind or_throw default from_option id log app].
  split.
  - intros ->. by rewrite chat_onError_missing_key.
  - intros message Hkey ->. destruct GROQ_API_KEY as [|c key]; [done|].
    cbn [responses]. unfold chat_onError.
    destruct (Js.includes message "GROQ_API_KEY") eqn:Hinc.
    + split; [done|]. intros Hno. by apply includes_spec in Hinc.
    + split; [|done]. intros Hsub%includes_spec. congruence.
Qed.

(** X5: whatever [doGroqChat] sends is a POST to the chat-completions
    path whose body carries the model as given, temperature 0.4, 1500
    output tokens, no streaming, and one reshaped message per message
    received, in order and with the same role. *)
Theorem doGroqChat_request reqId mdl msgs net method path b :
  (method, path, b) ∈ outbound (doGroqChat GROQ_API_KEY reqId mdl msgs net) →
  method = "POST" ∧ path = "/openai/v1/chat/completions"
  ∧ ∃ ms sent,
      msgs = JArr ms ∧ b = Some sent
      ∧ model sent = mdl ∧ temperature sent = 4 # 10
      ∧ max_tokens sent = 1500 ∧ stream sent = false
      ∧ Forall2 (λ m g, ∃ content,
                   g = JObj [("role", Js.oget m "role"); ("content", content)])
          ms (messages sent).
Proof.
  destruct (doGroqChat_cases reqId mdl msgs net)
    as [->|(info & sent & answer & -> & Hanswer & Hsent)].
  { intros Hin. by apply elem_of_nil in Hin. }
  destruct (answered_responses _ _ _ Hanswer) as (Hout & _).
  cbn [outbound]. rewrite outbound_app, Hout, app_nil_r.
  destruct Hsent as [(_ & -> & _)|(_ & ms & gm & -> & Hms & -> & _)].
  { intros Hin. by apply elem_of_nil in Hin. }
  cbn. intros Hin. apply list_elem_of_singleton in Hin. simplify_eq.
  repeat split. eexists ms, _. repeat split.
  apply mapM_Some in Hms. eapply Forall2_impl; [exact Hms|].
  intros m g Hg. cbn in Hg.
  destruct (reshape_shape_role m g Hg) as [content ->]. by exists content.
Qed.

End ChatAnswers.

(** ** What the model list always looks like *)

Section ModelNames.
Context {codec : JsonCodec}.
Variable GROQ_API_KEY : string.

Local Abbreviation usable := usable_name.

Lemma usable_of_blocklisted (name : string) :
  name ≠ "" → blocklisted name = false → usable name.
Proof.
  intros Hne Hblock. unfold usable_name. split; [done|]. intros frag Hfrag Hsub%includes_spec.
  unfold blocklisted, blocklist in Hblock. cbn [existsb] in Hblock.
  repeat (apply elem_of_cons in Hfrag as [->|Hfrag];
          [rewrite Hsub in Hblock; cbn in Hblock;
           by rewrite ?orb_true_r in Hblock|]).
  by apply elem_of_nil in Hfrag.
Qed.

Lemma fallback_usable : Forall (λ name, usable name) fallback_names.
Proof.
  unfold fallback_names.
  repeat (apply Forall_cons; split;
          [apply usable_of_blocklisted; [discriminate|vm_compute; reflexivity]|]).
  constructor.
Qed.

Lemma kept_names (ms : list JsVal) :
  ∃ names,
    (λ m, model_entry (Js.oget m "id")) <$> List.filter is_chat_model ms
    = (λ name, model_entry (JStr name)) <$> names
    ∧ Forall (λ name, usable name) names
    ∧ length names = length (List.filter is_chat_model ms).
Proof.
  induction ms as [|m ms (names & Heq & Hnames & Hlen)]; [by exists []|].
  cbn [List.filter]. destruct (is_chat_model m) eqn:Hm; [|by exists names].
  apply is_chat_model_spec in Hm as (id & Hid & Hne & Hfrags).
  exists (id :: names). cbn. rewrite Hid, Heq, Hlen.
  repeat split; try done. by constructor.
Qed.

(** X6: whatever the provider does, the list that [listModels] answers
    with is never empty, and every entry is [{name}] for a name that is a
    non-empty string containing none of [whisper], [tts], [embed],
    [guard]; at most one request is sent for it. *)
Theorem listModels_names reqId net :
  ∃ names,
    names ≠ []
    ∧ Forall (λ name, name ≠ ""
                      ∧ ∀ frag, frag ∈ ["whisper"; "tts"; "embed"; "guard"] →
                                ¬ has_substring frag name) names
    ∧ responses (listModels GROQ_API_KEY reqId net)
      = [(200, JObj [("models",
                      JArr ((λ name, JObj [("name", JStr name)]) <$> names))])]
    ∧ (length (outbound (listModels GROQ_API_KEY reqId net)) ≤ 1)%nat.
Proof.
  assert (∀ t, (responses t = [(200, models_payload GROQ_MODELS_FALLBACK)]
                ∧ (length (outbound t) ≤ 1)%nat) →
          ∃ names, names ≠ []
            ∧ Forall (λ name, usable name) names
            ∧ responses t
              = [(200, JObj [("models",
                    JArr ((λ name, JObj [("name", JStr name)]) <$> names))])]
            ∧ (length (outbound t) ≤ 1)%nat) as Hfallback.
  { intros t [Ht Hout]. exists fallback_names.
    split; [done|]. split; [apply fallback_usable|]. by rewrite Ht. }
  unfold usable_name in *.
  unfold listModels, groqRequest.
  destruct GROQ_API_KEY as [|c key];
    [apply Hfallback; split; [reflexivity|cbn; lia]|].
  destruct net as [statusCode data|message];
    [|apply Hfallback; split; [reflexivity|cbn; lia]].
  destruct (Z.leb_spec 400 statusCode) as [Hge|Hlt].
  { apply Hfallback. unfold listModels_onDone.
    destruct (Z.leb_spec 400 statusCode); [|lia].
    split; [reflexivity|cbn; lia]. }
  destruct (JSON_parse data) as [parsed|] eqn:Hparse.
  - rewrite (listModels_onDone_parsed _ _ _ _ Hlt Hparse). cbn zeta.
    destruct (kept_names (match Js.oget parsed "data" with
                          | JArr l => l
                          | _ => []
                          end)) as (names & Heq & Hnames & Hlen).
    destruct (List.filter _ _) as [|m kept] eqn:Hkept;
      [apply Hfallback; split; [reflexivity|cbn; lia]|].
    exists names. rewrite Heq.
    split; [by destruct names|]. split; [done|]. split; [done|cbn; lia].
  - apply Hfallback. unfold listModels_onDone.
    destruct (Z.leb_spec 400 statusCode); [lia|]. rewrite Hparse.
    split; [reflexivity|cbn; lia].
Qed.

End ModelNames.

(** ** The request handler *)

Lemma handler_trace_Ran (t : Trace) : handler_trace (Ran <$> t) = t.
Proof.
  unfold handler_trace. induction t as [|e t IH]; [done|]. cbn. by f_equal.
Qed.

Lemma handler_trace_app (evs1 evs2 : list ServerEvent) :
  handler_trace (evs1 ++ evs2) = handler_trace evs1 ++ handler_trace evs2.
Proof. apply omap_app. Qed.

Lemma outbound_nil_Forall (t : Trace) :
  Forall (λ e, match e with EvOutbound _ _ _ => False | _ => True end) t →
  outbound t = [].
Proof. induction 1 as [|e t He _ IH]; [done|]. by destruct e. Qed.

Lemma files_read_nil_Forall (t : Trace) :
  Forall (λ e, ¬ touches_files e) t → files_read t = [].
Proof.
  induction 1 as [|e t He _ IH]; [done|]. by destruct e.
Qed.

(** Every event of a body reading is one of the reader's own (a log
    line, a response, the destruction of the request, the mark of the
    callback) or one of the callback's. *)
Lemma readBody_run_Forall {runtime : TextRuntime} (Q : Event → Prop)
    reqId limit onDone st evs :
  (∀ level message extra, Q (EvLog level message extra)) →
  (∀ status payload, Q (EvRespond status payload)) →
  Q EvDestroy → (∀ b, Q (EvDone b)) →
  (∀ b, Forall Q (onDone b)) →
  Forall Q (readBody_run reqId limit onDone st evs).2.
Proof.
  intros Hlog Hrespond Hdestroy Hdone Hcallback.
  revert st. induction evs as [|ev evs IH]; intros st; [by constructor|].
  cbn [readBody_run].
  destruct (readBody_on reqId limit onDone st ev) as [st1 t1] eqn:Hstep.
  specialize (IH st1).
  destruct (readBody_run reqId limit onDone st1 evs) as [st2 t2].
  cbn in *. apply Forall_app. split; [|done].
  destruct ev as [chunk| |message]; cbn in Hstep.
  - destruct (limit <? _), (done st); simplify_eq;
      repeat constructor; auto.
  - destruct (done st); simplify_eq; [constructor|].
    constructor; auto.
  - destruct (done st); simplify_eq; repeat constructor; auto.
Qed.

Section Routing.
Context {codec : JsonCodec} {runtime : TextRuntime}.
Variables (GROQ_API_KEY STATIC_ROOT cwd : string) (fs : string → option string).

Lemma answered_no_files reqId net answer :
  Answered reqId net answer → Forall (λ e, ¬ touches_files e) answer.
Proof. intros []; repeat constructor; cbn; tauto. Qed.

Lemma proxyGroqChat_no_files reqId body net :
  Forall (λ e, ¬ touches_files e) (proxyGroqChat GROQ_API_KEY reqId body net).
Proof.
  unfold proxyGroqChat.
  destruct (JSON_parse body) as [parsed|]; [|repeat constructor; cbn; tauto].
  destruct (_ || _); [repeat constructor; cbn; tauto|].
  destruct (Js.get parsed "model") as [mdl|]; [|repeat constructor; cbn; tauto].
  destruct (Js.get parsed "messages") as [msgs|];
    [|repeat constructor; cbn; tauto].
  cbn [mbind option_bind or_throw default from_option id].
  destruct (doGroqChat_cases GROQ_API_KEY reqId mdl msgs net)
    as [->|(info & sent & answer & -> & Hanswer & Hsent)];
    [repeat constructor; cbn; tauto|].
  constructor; [cbn; tauto|]. apply Forall_app. split.
  - destruct Hsent as [(_ & -> & _)|(_ & ms & gm & _ & _ & -> & _)];
      repeat constructor; cbn; tauto.
  - by eapply answered_no_files.
Qed.

Lemma proxyGroqChat_no_key reqId body net :
  GROQ_API_KEY = "" →
  outbound (proxyGroqChat GROQ_API_KEY reqId body net) = [].
Proof.
  intros Hkey. unfold proxyGroqChat.
  destruct (JSON_parse body) as [parsed|]; [|done].
  destruct (_ || _); [done|].
  destruct (Js.get parsed "model") as [mdl|]; [|done].
  destruct (Js.get parsed "messages") as [msgs|]; [|done].
  cbn [mbind option_bind or_throw default from_option id].
  destruct (doGroqChat_cases GROQ_API_KEY reqId mdl msgs net)
    as [->|(info & sent & answer & -> & Hanswer & Hsent)]; [done|].
  destruct (answered_responses _ _ _ Hanswer) as (Hout & _).
  destruct Hsent as [(_ & -> & _)|(Hne & _)]; [|done].
  cbn. by rewrite Hout.
Qed.

Lemma listModels_no_files reqId net :
  Forall (λ e, ¬ touches_files e) (listModels GROQ_API_KEY reqId net).
Proof.
  unfold listModels, groqRequest, listModels_onError.
  destruct GROQ_API_KEY; [repeat constructor; cbn; tauto|].
  constructor; [cbn; tauto|].
  destruct net as [statusCode data|message]; [|repeat constructor; cbn; tauto].
  unfold listModels_onDone.
  destruct (400 <=? statusCode); [repeat constructor; cbn; tauto|].
  destruct (JSON_parse data); [|repeat constructor; cbn; tauto].
  destruct (mapM _ _); repeat constructor; cbn; tauto.
Qed.

Lemma serveStatic_no_outbound reqId reqPath :
  outbound (serveStatic STATIC_ROOT cwd fs reqId reqPath) = [].
Proof.
  rewrite serveStatic_cases. destruct (Js.startsWith _ _); [|done].
  by destruct (fs _).
Qed.

(** X7: files and the provider are kept apart by the path name that the
    URL parser extracts from the request target.  When that path name
    starts with [/api/] the request never reads or serves a file,
    whatever its method and body; when it does not, the request never
    sends anything to the provider. *)
Theorem routes_keep_apart requestCounter method url host pathname uptimeSec
    elapsedMs net evs :
  URL_pathname url (url_base host) = Some pathname →
  (Js.startsWith pathname "/api/" = true →
   Forall (λ e, ¬ touches_files e)
     (handler_trace (requestHandler GROQ_API_KEY STATIC_ROOT cwd fs requestCounter
                       method url host uptimeSec elapsedMs net evs).2))
  ∧ (Js.startsWith pathname "/api/" = false →
     outbound
       (handler_trace (requestHandler GROQ_API_KEY STATIC_ROOT cwd fs requestCounter
                         method url host uptimeSec elapsedMs net evs).2) = []).
Proof.
  intros Hparse. unfold requestHandler. cbn [snd]. rewrite Hparse.
  unfold handle. rewrite handler_trace_app.
  set (finish := handler_trace (match final_status _ with
                                | Some _ => _
                                | None => []
                                end)).
  assert (Forall (λ e, ¬ touches_files e) finish ∧ outbound finish = [])
    as [Hfinish Hfinish'].
  { subst finish. destruct (final_status _); [|done].
    split; [|done]. repeat constructor. cbn. tauto. }
  unfold dispatch. split; intros Hapi.
  - apply Forall_app. split; [|done].
    repeat case_decide; rewrite ?handler_trace_Ran.
    + constructor.
    + destruct_and!. by subst.
    + apply listModels_no_files.
    + unfold chatRoute, readBody.
      apply readBody_run_Forall; try (cbn; tauto).
      intros b. apply proxyGroqChat_no_files.
    + rewrite Hapi, handler_trace_Ran. repeat constructor; cbn; tauto.
  - rewrite outbound_app, Hfinish', app_nil_r.
    repeat case_decide; rewrite ?handler_trace_Ran; try done.
    + destruct_and!. by subst.
    + destruct_and!. by subst.
    + rewrite Hapi, handler_trace_Ran. apply serveStatic_no_outbound.
Qed.

End Routing.

Lemma proxyGroqChat_no_key_empty {codec : JsonCodec} reqId body net :
  outbound (proxyGroqChat "" reqId body net) = [].
Proof. by apply proxyGroqChat_no_key. Qed.

Lemma outbound_Forall_nil (t : Trace) :
  outbound t = [] →
  Forall (λ e, match e with EvOutbound _ _ _ => False | _ => True end) t.
Proof.
  induction t as [|e t IH]; [by constructor|].
  destruct e; cbn; intros Hout; try discriminate;
    (constructor; [done|by apply IH]).
Qed.

Section NoKey.
Context {codec : JsonCodec} {runtime : TextRuntime}.
Variables (STATIC_ROOT cwd : string) (fs : string → option string).

(** X8: a server without a key never sends a request to the provider,
    whatever it is asked: every route answers from what it has. *)
Theorem no_key_no_request requestCounter method url host uptimeSec elapsedMs
    net evs :
  outbound
    (handler_trace (requestHandler "" STATIC_ROOT cwd fs requestCounter
                      method url host uptimeSec elapsedMs net evs).2) = [].
Proof.
  unfold requestHandler. cbn [snd].
  destruct (URL_pathname url (url_base host)) as [pathname|]; [|done].
  unfold handle. rewrite handler_trace_app, outbound_app.
  assert (∀ evs', outbound (handler_trace
                    (match final_status evs' with
                     | Some statusCode =>
                         [Ran (EvLog "HTTP"
                                 ("[" +:+ pretty (S requestCounter) +:+ "] "
                                  +:+ method +:+ " " +:+ pathname +:+ " -> "
                                  +:+ pretty statusCode +:+ " ("
                                  +:+ pretty elapsedMs +:+ "ms)") None)]
                     | None => []
                     end)) = []) as ->.
  { intros evs'. by destruct (final_status evs'). }
  rewrite app_nil_r. unfold dispatch.
  repeat case_decide; rewrite ?handler_trace_Ran; try done.
  - apply outbound_nil_Forall. unfold chatRoute, readBody.
    apply readBody_run_Forall; try done.
    intros b. apply outbound_Forall_nil.
    by apply (proxyGroqChat_no_key_empty (S requestCounter) b net).
  - destruct (Js.startsWith pathname "/api/"); rewrite handler_trace_Ran;
      [done|apply serveStatic_no_outbound].
Qed.

End NoKey.

(** ** Static files inside the root *)




Section StaticInside.
Variables (cwd : string) (fs : string → option string).






End StaticInside.


(** X10: with an absolute static root, the root and every resolved
    request path are canonical: a [/] followed by segments that are
    neither empty nor [.] nor [..] and hold no separator. *)
Theorem static_resolution_canonical (STATIC_ROOT cwd reqPath : string) :
  Path.isAbsolute STATIC_ROOT = true →
  let root := Path.resolve cwd [STATIC_ROOT] in
  let resolved := Path.resolve cwd [STATIC_ROOT; "." +:+ static_file reqPath] in
  Forall is_name (path_components root)
  ∧ root = "/" +:+ Js.join "/" (path_components root)
  ∧ Forall is_name (path_components resolved)
  ∧ resolved = "/" +:+ Js.join "/" (path_components resolved).
Proof.
  intros Habs root resolved.
  destruct (resolve_absolute_canonical cwd [STATIC_ROOT]) as [? ?].
  { destruct STATIC_ROOT; [done|]. cbn -[Path.isAbsolute]. by rewrite Habs. }
  destruct (resolve_absolute_canonical cwd
              [STATIC_ROOT; "." +:+ static_file reqPath]) as [? ?].
  { change ("." +:+ static_file reqPath) with (String "." (static_file reqPath)).
    destruct STATIC_ROOT; [done|]. cbn -[Path.isAbsolute]. by rewrite Habs. }
  done.
Qed.

Lemma static_resolution_canonical_witness :
  path_components
    (Path.resolve "/home" ["/srv//app/"; "." +:+ static_file "/a/./b/../../../x"])
  = ["srv"; "x"]
  ∧ Forall is_name
      (path_components
         (Path.resolve "/home" ["/srv//app/"; "." +:+ static_file "/a/./b/../../../x"])).
Proof.
  split; [reflexivity|].
  exact (proj1 (proj2 (proj2 (static_resolution_canonical "/srv//app/" "/home"
                                "/a/./b/../../../x" eq_refl)))).
Defined.

(** ** Lines of the [.env] file *)

Lemma join_split c (s : string) :
  Js.join (String c "") (Js.split c s) = s.
Proof.
  induction s as [|a s IH]; [done|]. cbn [Js.split].
  pose proof (split_nonempty c s) as Hne.
  destruct (Ascii.eqb_spec a c) as [->|Hac].
  - destruct (Js.split c s) as [|p ps]; [done|].
    change (Js.join (String c "") ("" :: p :: ps))
      with ("" +:+ String c "" +:+ Js.join (String c "") (p :: ps)).
    by rewrite IH.
  - destruct (Js.split c s) as [|p ps]; [done|].
    destruct ps as [|q ps]; cbn in *; [by rewrite IH|].
    rewrite string_app_cons. by rewrite IH.
Qed.

(** A string splits into one piece exactly when the separator does not
    occur in it. *)
Lemma split_single c (s : string) :
  Js.split c s = [s] ↔ ¬ has_substring (String c "") s.
Proof.
  split.
  - intros Hsplit (pre & post & ->).
    change (pre +:+ String c "" +:+ post) with (pre +:+ String c post) in Hsplit.
    rewrite split_app in Hsplit.
    pose proof (split_nonempty c pre). pose proof (split_nonempty c post).
    destruct (Js.split c pre) as [|? [|? ?]], (Js.split c post); done.
  - induction s as [|a s IH]; intros Hno; [done|]. cbn [Js.split].
    destruct (Ascii.eqb_spec a c) as [->|Hac].
    + destruct Hno. by exists "", s.
    + rewrite IH; [done|].
      intros (pre & post & ->). apply Hno. by exists (String a pre), post.
Qed.

Section EnvLines.
Context {runtime : TextRuntime}.
Implicit Types (env : gmap string string) (line text k v : string).

(** X11: a line is cut at its first [=].  When the trimmed line is a
    non-empty key without [=], an [=], and a rest, the line assigns the
    trimmed rest to the trimmed key, further [=] signs in the rest
    included; there is no comment syntax. *)
Theorem entry_cut_at_first_equals line k v :
  String_trim line = k +:+ "=" +:+ v →
  k ≠ "" → ¬ has_substring "=" k →
  Env.entry line = Some (String_trim k, String_trim v).
Proof.
  intros Hline Hne Hno. unfold Env.entry. rewrite Hline.
  change (k +:+ "=" +:+ v) with (k +:+ String "=" v).
  rewrite split_app, (proj2 (split_single "=" k) Hno).
  pose proof (split_nonempty "=" v) as Hv.
  pose proof (join_split "=" v) as Hjoin.
  destruct (Js.split "=" v) as [|p ps]; [done|].
  destruct k as [|a k]; [done|]. cbn [app]. by rewrite Hjoin.
Qed.

(** X12: the lines that assign nothing are exactly those whose trimmed
    text holds no [=] (blank lines among them) or begins with [=]. *)
Theorem entry_ignored line :
  Env.entry line = None ↔
  ¬ has_substring "=" (String_trim line) ∨ ∃ rest, String_trim line = "=" +:+ rest.
Proof.
  unfold Env.entry.
  pose proof (join_split "=" (String_trim line)) as Hjoin.
  pose proof (split_nonempty "=" (String_trim line)) as Hne.
  destruct (Js.split "=" (String_trim line)) as [|key val] eqn:Hsplit; [done|].
  split.
  - intros Hnone. destruct val as [|p ps].
    + left. apply split_single. cbn in Hjoin. by rewrite <- Hjoin at 2.
    + right. destruct key as [|a key]; [|done].
      exists (Js.join "=" (p :: ps)). by rewrite <- Hjoin.
  - intros [Hno|[rest Hrest]].
    + apply split_single in Hno. rewrite Hsplit in Hno.
      simplify_eq. by destruct (String_trim line).
    + rewrite Hrest in Hsplit.
      change ("=" +:+ rest) with (String "=" rest) in Hsplit.
      cbn in Hsplit. by simplify_eq.
Qed.

End EnvLines.

Lemma entry_cut_at_first_equals_witness :
  Env.entry (runtime := PlainText.runtime) "  # note: URL = https://x.test/?a=b  "
  = Some ("# note: URL", "https://x.test/?a=b").
Proof.
  refine (entry_cut_at_first_equals (runtime := PlainText.runtime) _
            "# note: URL " " https://x.test/?a=b" _ _ _).
  - reflexivity.
  - discriminate.
  - apply split_single. reflexivity.
Defined.

Lemma entry_ignored_witness :
  Env.entry (runtime := PlainText.runtime) "   " = None
  ∧ Env.entry (runtime := PlainText.runtime) "# just a comment" = None
  ∧ Env.entry (runtime := PlainText.runtime) " =orphan" = None.
Proof.
  split; [|split].
  - apply (proj2 (entry_ignored (runtime := PlainText.runtime) "   ")).
    left. apply split_single. reflexivity.
  - apply (proj2 (entry_ignored (runtime := PlainText.runtime) "# just a comment")).
    left. apply split_single. reflexivity.
  - apply (proj2 (entry_ignored (runtime := PlainText.runtime) " =orphan")).
    right. by exists "orphan".
Defined.

(** ** Trimming of plain text *)

Lemma rev_app_spec (s1 s2 : string) :
  String.rev_app s1 s2 = String.rev s1 +:+ s2.
Proof.
  revert s2. induction s1 as [|a s1 IH]; intros s2; [done|].
  unfold String.rev. cbn [String.rev_app].
  rewrite (IH (String a s2)), (IH (String a "")).
  by rewrite string_app_assoc.
Qed.

Lemma rev_cons a (s : string) :
  String.rev (String a s) = String.rev s +:+ String a "".
Proof. unfold String.rev at 1. cbn [String.rev_app]. apply rev_app_spec. Qed.

Lemma rev_append (s1 s2 : string) :
  String.rev (s1 +:+ s2) = String.rev s2 +:+ String.rev s1.
Proof.
  induction s1 as [|a s1 IH].
  - change ("" +:+ s2) with s2. by rewrite string_app_empty_r.
  - rewrite string_app_cons, !rev_cons, IH. by rewrite string_app_assoc.
Qed.

Lemma rev_involutive (s : string) : String.rev (String.rev s) = s.
Proof.
  induction s as [|a s IH]; [done|].
  by rewrite rev_cons, rev_append, IH.
Qed.

Lemma trimStart_dropped (s : string) : ∃ w, s = w +:+ PlainText.trimStart s.
Proof.
  induction s as [|a s [w Hw]]; [by exists ""|]. cbn.
  destruct (Ascii.is_space a); [|by exists ""].
  exists (String a w). by rewrite string_app_cons, <- Hw.
Qed.

Lemma trimStart_length (s : string) :
  (String.length (PlainText.trimStart s) ≤ String.length s)%nat.
Proof.
  induction s as [|a s IH]; [done|]. cbn.
  destruct (Ascii.is_space a); cbn; lia.
Qed.

(** A string is its own [trimStart] exactly when it does not begin with
    white space. *)
Lemma trimStart_fixed a (s : string) :
  PlainText.trimStart (String a s) = String a s ↔ Ascii.is_space a = false.
Proof.
  cbn. destruct (Ascii.is_space a); [|done].
  split; [|done]. intros Heq. pose proof (trimStart_length s) as Hlen.
  rewrite Heq in Hlen. cbn in Hlen. lia.
Qed.

Lemma trimStart_idem (s : string) :
  PlainText.trimStart (PlainText.trimStart s) = PlainText.trimStart s.
Proof.
  induction s as [|a s IH]; [done|]. cbn.
  destruct (Ascii.is_space a) eqn:Ha; [done|]. cbn. by rewrite Ha.
Qed.

(** [trim] keeps a middle part of the string. *)
Lemma trim_middle (s : string) : ∃ w1 w2, s = w1 +:+ PlainText.trim s +:+ w2.
Proof.
  unfold PlainText.trim.
  destruct (trimStart_dropped s) as [w1 Hw1].
  destruct (trimStart_dropped (String.rev (PlainText.trimStart s))) as [w2 Hw2].
  exists w1, (String.rev w2).
  rewrite <- rev_append, <- Hw2, rev_involutive. done.
Qed.

Lemma trim_no_lead (s : string) : PlainText.trimStart (PlainText.trim s) = PlainText.trim s.
Proof.
  unfold PlainText.trim.
  destruct (trimStart_dropped (String.rev (PlainText.trimStart s))) as [w Hw].
  set (u := PlainText.trimStart (String.rev (PlainText.trimStart s))) in *.
  apply (f_equal String.rev) in Hw. rewrite rev_involutive, rev_append in Hw.
  destruct (String.rev u) as [|a r] eqn:Hu; [done|].
  apply trimStart_fixed.
  pose proof (trimStart_idem s) as Hidem. rewrite Hw in Hidem.
  rewrite string_app_cons in Hidem. by apply trimStart_fixed in Hidem.
Qed.

Lemma trim_idem (s : string) : PlainText.trim (PlainText.trim s) = PlainText.trim s.
Proof.
  unfold PlainText.trim at 1. rewrite trim_no_lead.
  unfold PlainText.trim. by rewrite rev_involutive, trimStart_idem.
Qed.

Lemma trimStart_keeps_last (s : string) a :
  Ascii.is_space a = false → PlainText.trimStart (s +:+ String a "") ≠ "".
Proof.
  intros Ha. induction s as [|b s IH].
  - change ("" +:+ String a "") with (String a ""). cbn. by rewrite Ha.
  - rewrite string_app_cons. cbn. by destruct (Ascii.is_space b).
Qed.

Lemma trim_nonempty a (s : string) :
  Ascii.is_space a = false → PlainText.trim (String a s) ≠ "".
Proof.
  intros Ha. unfold PlainText.trim.
  rewrite (proj2 (trimStart_fixed a s) Ha), rev_cons.
  intros Hrev. apply (f_equal String.rev) in Hrev.
  rewrite rev_involutive in Hrev.
  by apply (trimStart_keeps_last (String.rev s) a Ha).
Qed.

(** A trimmed text does not begin with white space, so a non-empty key
    at its beginning does not trim to nothing. *)
Lemma trim_key_nonempty (a b : string) :
  a ≠ "" → ¬ has_substring "=" a →
  PlainText.trim (a +:+ "=" +:+ b) = a +:+ "=" +:+ b → PlainText.trim a ≠ "".
Proof.
  intros Hne _ Hfixed. destruct a as [|c a]; [done|].
  pose proof (trim_no_lead (String c a +:+ "=" +:+ b)) as Hlead.
  rewrite Hfixed, string_app_cons in Hlead.
  apply trimStart_fixed in Hlead. by apply trim_nonempty.
Qed.

(** ** What the loader writes *)

Lemma foldl_loadLine_lookup {runtime : TextRuntime}
    (env : gmap string string) (ls : list string) (k : string) :
  foldl Env.loadLine env ls !! k = env !! k
  ∨ ∃ line v, line ∈ ls ∧ Env.entry line = Some (k, v)
              ∧ foldl Env.loadLine env ls !! k = Some v.
Proof.
  revert env. induction ls as [|l ls IH]; intros env; [by left|].
  cbn [foldl].
  destruct (IH (Env.loadLine env l)) as [Hsame|(line & v & Hin & Hentry & Hv)].
  - rewrite Hsame, loadLine_entry.
    destruct (Env.entry l) as [[k' v']|] eqn:Hl; [|by left].
    destruct (decide (k' = k)) as [->|Hne].
    + right. exists l, v'. rewrite lookup_insert_eq. split; [by left|done].
    + left. by apply lookup_insert_ne.
  - right. exists line, v. split; [by right|done].
Qed.

Section EnvWrites.
Context {runtime : TextRuntime}.
Implicit Types (env : gmap string string) (line text k v : string).

(** What the loader needs of [String.prototype.trim]: the result is a
    middle part of the text, trimming a trimmed text changes nothing, and
    when a trimmed text is a non-empty key, an [=] and a rest, the key
    does not trim to nothing. *)
Hypothesis trim_inside : ∀ s : string, ∃ w1 w2, s = w1 +:+ String_trim s +:+ w2.
Hypothesis trim_twice : ∀ s : string, String_trim (String_trim s) = String_trim s.
Hypothesis trim_key : ∀ a b : string,
  a ≠ "" → ¬ has_substring "=" a →
  String_trim (a +:+ "=" +:+ b) = a +:+ "=" +:+ b → String_trim a ≠ "".

Lemma entry_well_formed line k v :
  Env.entry line = Some (k, v) →
  k ≠ "" ∧ ¬ has_substring "=" k ∧ String_trim k = k ∧ String_trim v = v.
Proof.
  unfold Env.entry. intros Hentry.
  pose proof (join_split "=" (String_trim line)) as Hjoin.
  pose proof (trim_twice line) as Hfixed.
  destruct (Js.split "=" (String_trim line)) as [|key val] eqn:Hsplit; [done|].
  destruct key as [|a key]; [done|]. destruct val as [|p ps]; [done|].
  simplify_eq.
  change (Js.join "=" (String a key :: p :: ps))
    with (String a key +:+ "=" +:+ Js.join "=" (p :: ps)) in Hjoin.
  assert (Js.split "=" (String a key) = [String a key]) as Hpiece.
  { apply (split_piece "=" (String_trim line)). rewrite Hsplit. by left. }
  apply split_single in Hpiece.
  split.
  { apply (trim_key _ (Js.join "=" (p :: ps))); [done|done|].
    by rewrite Hjoin. }
  split; [|by rewrite !trim_twice].
  intros (pre & post & Hk).
  destruct (trim_inside (String a key)) as (w1 & w2 & Hmid).
  apply Hpiece.
  exists (w1 +:+ pre), (post +:+ w2).
  rewrite Hmid at 1. rewrite Hk. by rewrite !string_app_assoc.
Qed.

(** X13: the loader only ever writes well-formed variables and removes
    none.  A key whose value differs after loading holds the value that
    a line of the file assigns to it; the key is not empty, holds no [=]
    and is trimmed, and the value is trimmed. *)
Theorem load_writes_well_formed (dotenv : option string) env k :
  Env.load dotenv env !! k ≠ env !! k →
  ∃ text line v,
    dotenv = Some text ∧ line ∈ Js.split "010" text
    ∧ Env.entry line = Some (k, v)
    ∧ Env.load dotenv env !! k = Some v
    ∧ k ≠ "" ∧ ¬ has_substring "=" k ∧ String_trim k = k ∧ String_trim v = v.
Proof.
  destruct dotenv as [text|]; [|done]. unfold Env.load. intros Hdiff.
  destruct (foldl_loadLine_lookup env (Js.split "010" text) k)
    as [Hsame|(line & v & Hin & Hentry & Hv)]; [done|].
  exists text, line, v. do 4 (split; [done|]). by eapply entry_well_formed.
Qed.

End EnvWrites.

Lemma load_writes_well_formed_witness :
  ∃ text line v,
    Some "NAME=a
  PORT = 4000  " = Some text ∧ line ∈ Js.split "010" text
    ∧ Env.entry (runtime := PlainText.runtime) line = Some ("PORT", v)
    ∧ Env.load (runtime := PlainText.runtime) (Some "NAME=a
  PORT = 4000  ") ({[ "PORT" := "3000" ]}) !! "PORT" = Some v
    ∧ "PORT" ≠ "" ∧ ¬ has_substring "=" "PORT"
    ∧ PlainText.trim "PORT" = "PORT" ∧ PlainText.trim v = v.
Proof.
  apply (load_writes_well_formed (runtime := PlainText.runtime)
           trim_middle trim_idem trim_key_nonempty
           (Some "NAME=a
  PORT = 4000  ") {[ "PORT" := "3000" ]} "PORT").
  vm_compute. discriminate.
Defined.

(** ** Instances of the request properties *)

Lemma chat_failure_status_witness :
  responses
    (doGroqChat (codec := MiniJson.codec) "gsk_live" 5 (JStr "llama-3.1-8b-instant")
       (JArr [JObj [("role", JStr "user"); ("content", JStr "hi")]])
       (UpFail "connect ECONNREFUSED"))
  = [(502, error_payload "Groq request failed: connect ECONNREFUSED")].
Proof.
  refine (proj2 (proj2 (chat_failure_status (codec := MiniJson.codec) "gsk_live" 5
                          (JStr "llama-3.1-8b-instant")
                          [JObj [("role", JStr "user"); ("content", JStr "hi")]]
                          [JObj [("role", JStr "user"); ("content", JStr "hi")]]
                          "llama-3.1-8b-instant" (UpFail "connect ECONNREFUSED")
                          eq_refl eq_refl)
                   "connect ECONNREFUSED" _ eq_refl) _).
  - discriminate.
  - intros Hsub%includes_spec. vm_compute in Hsub. discriminate.
Defined.

Lemma doGroqChat_request_witness :
  ∃ ms sent,
    JArr [JObj [("role", JStr "user"); ("content", JStr "hi"); ("id", JNum 3)]]
    = JArr ms
    ∧ Some {| model := JStr "m"; messages := [chat_message (JStr "user") (JStr "hi")];
              temperature := 4 # 10; max_tokens := 1500; stream := false |}
      = Some sent
    ∧ model sent = JStr "m" ∧ temperature sent = 4 # 10
    ∧ max_tokens sent = 1500 ∧ stream sent = false
    ∧ Forall2 (λ m g, ∃ content,
                 g = JObj [("role", Js.oget m "role"); ("content", content)])
        ms (messages sent).
Proof.
  refine (proj2 (proj2 (doGroqChat_request (codec := MiniJson.codec) "gsk_live" 6
                          (JStr "m")
                          (JArr [JObj [("role", JStr "user"); ("content", JStr "hi");
                                       ("id", JNum 3)]])
                          (UpFail "socket hang up") "POST"
                          "/openai/v1/chat/completions" _ _))).
  vm_compute. left.
Defined.

Lemma routes_keep_apart_witness :
  Forall (λ e, ¬ touches_files e)
    (handler_trace
       (requestHandler (codec := MiniJson.codec) (runtime := PlainText.runtime)
          "gsk_live" "/srv/app" "/home" (λ _, Some "secret") 0
          "GET" "/api/math-solver.html?v=2" (Some "localhost:3000") 12 3
          (UpFail "unused") []).2)
  ∧ outbound
      (handler_trace
         (requestHandler (codec := MiniJson.codec) (runtime := PlainText.runtime)
            "gsk_live" "/srv/app" "/home" (λ _, Some "secret") 0
            "POST" "/chat" None 12 3
            (UpReply 200 "unused") [OnData "{}"; OnEnd]).2) = [].
Proof.
  split.
  - apply (proj1 (routes_keep_apart (codec := MiniJson.codec)
                    (runtime := PlainText.runtime) "gsk_live" "/srv/app"
                    "/home" (λ _, Some "secret") 0 "GET"
                    "/api/math-solver.html?v=2" (Some "localhost:3000")
                    "/api/math-solver.html" 12 3 (UpFail "unused") [] eq_refl)).
    reflexivity.
  - apply (proj2 (routes_keep_apart (codec := MiniJson.codec)
                    (runtime := PlainText.runtime) "gsk_live" "/srv/app"
                    "/home" (λ _, Some "secret") 0 "POST" "/chat" None "/chat"
                    12 3 (UpReply 200 "unused") [OnData "{}"; OnEnd] eq_refl)).
    reflexivity.
Defined.
